(** * keg: the command surface of the knowledge exchange graph tool

    A shallow embedding of [cmd.go] (package [keg]).  Every command body
    ([Call]) is a finite program over the calls it makes to its
    collaborators: the operating system, the terminal, the bonzai command
    tree and the index subsystem of the package ([ReadDex], [MakeDex],
    [Publish], ...), whose sources are not part of [cmd.go].  A program is
    run against an arbitrary handler that answers those calls and threads a
    world of its own; the run records every call with its answer, in order.

    Go pointers ([*Local], [*Dex], [*DexEntry], [*Z.Cmd]) are options, a
    field access through a nil pointer is a run-time panic, and an [error]
    is [option error] with [None] for [nil].  A collaborator always
    answers: a panic raised inside one is not part of the model, only the
    panics of [cmd.go] itself are.  [initCmd] is not embedded. *)

From Stdlib Require Import String Ascii ZArith List Bool Lia DecimalString.
From Stdlib Require Decimal DecimalPos.
Import ListNotations.
Open Scope string_scope.
Open Scope Z_scope.


(** ** Data *)

(** [*Z.Cmd]: the fields of a bonzai command that [cmd.go] reads. *)
#[warnings="-register-all"]
Inductive Cmd : Type :=
  mkCmd (Name : string) (Caller : option Cmd).

Definition Name (x : Cmd) : string := let (n, _) := x in n.
Definition Caller (x : Cmd) : option Cmd := let (_, c) := x in c.

(** Go's [error] values that can reach a caller of [cmd.go]. *)
Inductive error : Type :=
| Errorf (format : string) (a : list string)   (* fmt.Errorf(format, a...) *)
| NumError (fn num why : string)               (* *strconv.NumError *)
| UsageError (x : Cmd)                         (* x.UsageError() *)
| Foreign (msg : string).                      (* raised inside a collaborator *)

(** [Local{Path, Name}]: which keg a command works on. *)
Record Local : Type := mkLocal { Path : string; LName : string }.

(** [DexEntry]: the fields [cmd.go] reads are [N] (node id) and [T]
    (title).  Modelled from the spec: the declaration of the type is not in
    [cmd.go]; [U] is the update time of spec section 3, as seconds. *)
Record DexEntry : Type := mkEntry { U : Z; N : Z; T : string }.

Definition Dex : Type := list DexEntry.

(** An argument of [term.Print(a ...any)]. *)
Inductive any : Type :=
| AStr (s : string)
| AInt (n : Z).

(** ** The Go standard library functions that [cmd.go] calls *)

Definition digit_of (c : ascii) : option Z :=
  let n := Z.of_N (N_of_ascii c) in
  if (48 <=? n) && (n <=? 57) then Some (n - 48) else None.

Fixpoint digits (s : string) (acc : Z) : option Z :=
  match s with
  | EmptyString => Some acc
  | String c s' =>
      match digit_of c with
      | Some d => digits s' (acc * 10 + d)
      | None => None
      end
  end.

Definition maxInt : Z := 2 ^ 63 - 1.
Definition minInt : Z := - 2 ^ 63.

(** [strconv.Atoi]: an optional sign, then one or more decimal digits, in
    the range of a 64-bit [int]. *)
Definition Atoi (s : string) : Z * option error :=
  let syntax := (0, Some (NumError "Atoi" s "invalid syntax")) in
  let range v := (v, Some (NumError "Atoi" s "value out of range")) in
  match s with
  | EmptyString => syntax
  | String c rest =>
      let '(neg, body) :=
        if Ascii.eqb c "+" then (false, rest)
        else if Ascii.eqb c "-" then (true, rest)
        else (false, s) in
      match body with
      | EmptyString => syntax
      | _ =>
          match digits body 0 with
          | None => syntax
          | Some v =>
              if neg then
                if minInt <=? - v then (- v, None) else range minInt
              else
                if v <=? maxInt then (v, None) else range maxInt
          end
      end
  end.

(** [strconv.Itoa]. *)
Definition Itoa (n : Z) : string := NilZero.string_of_int (Z.to_int n).

(** [strings.Join(elems, sep)]. *)
Definition strings_Join (elems : list string) (sep : string) : string :=
  String.concat sep elems.

(** [path/filepath] and the pure methods of the package's [Dex] and
    [DexEntry] that [cmd.go] calls.  Their sources are not in [cmd.go]; the
    commands are embedded over any implementation of them. *)
Class Lib : Type := {
  Join : list string -> string;            (* filepath.Join(elem...) *)
  Base : string -> string;                 (* filepath.Base *)
  Dir : string -> string;                  (* filepath.Dir *)
  ID : DexEntry -> string;                 (* DexEntry.ID *)
  WithTitleText : option Dex -> string -> option Dex;
  Pretty : option Dex -> string;
  AsIncludes : option Dex -> string
}.

(** ** Calls to collaborators *)

(** One constructor per effectful call of [cmd.go]; the index is the type
    of the answer. *)
Inductive Ev : Type -> Type :=
| Getenv (key : string) : Ev string                            (* os.Getenv *)
| ConfC (x : option Cmd) (q : string) : Ev (string * option error)  (* x.C *)
| VarGet (x : option Cmd) (key : string) : Ev (string * option error) (* x.Get *)
| Getwd : Ev (string * option error)                           (* os.Getwd *)
| Exists (path : string) : Ev bool                             (* fs.Exists *)
| Tilde2Home (dir : string) : Ev string                        (* fs.Tilde2Home *)
| IsInteractive : Ev bool                                      (* term.IsInteractive *)
| TermPrint (a : any) : Ev unit                                (* term.Print *)
| FmtPrint (s : string) : Ev unit                              (* fmt.Print *)
| Page (s : string) : Ev unit                                  (* Z.Page *)
| LogPrintln (l : list string) : Ev unit                       (* log.Println *)
| HelpCall (x : Cmd) (args : list string) : Ev (option error)  (* help.Cmd.Call *)
| ReadDex (kegpath : string) : Ev (option Dex * option error)
| ParseDex (s : string) : Ev (option Dex * option error)
| Last (kegpath : string) : Ev (option DexEntry)
| ChooseWithTitleText (d : option Dex) (key : string) : Ev (option DexEntry)
| Random (d : option Dex) : Ev (option DexEntry)
| MakeDex (kegpath : string) : Ev (option error)
| DexUpdate (kegpath : string) (entry : option DexEntry) : Ev (option error)
| Publish (kegpath : string) : Ev (option error)
| MakeNode (kegpath : string) : Ev (option DexEntry * option error)
| WriteSample (kegpath : string) (entry : option DexEntry) : Ev (option error)
| Edit (kegpath : string) (id : Z) : Ev (option error)
| FileEdit (path : string) : Ev (option error)                 (* file.Edit *)
| FileIsEmpty (path : string) : Ev bool                        (* file.IsEmpty *)
| FileHead (path : string) (n : Z) : Ev (list string * option error) (* file.Head *)
| RemoveAll (dir : string) : Ev (option error).                (* os.RemoveAll *)

(** ** Programs *)

Inductive Prog (A : Type) : Type :=
| Ret (a : A)
| Panic (why : string)
| Call (X : Type) (e : Ev X) (k : X -> Prog A).

Arguments Ret {A} a.
Arguments Panic {A} why.
Arguments Call {A X} e k.

Fixpoint bind {A B : Type} (p : Prog A) (k : A -> Prog B) : Prog B :=
  match p with
  | Ret a => k a
  | Panic why => Panic why
  | Call e k' => Call e (fun r => bind (k' r) k)
  end.

Definition call {X : Type} (e : Ev X) : Prog X := Call e Ret.

Declare Scope prog_scope.
Delimit Scope prog_scope with prog.
Notation "x <- c ;; k" := (bind c (fun x => k))
  (at level 61, c at next level, right associativity) : prog_scope.
Notation "' pat <- c ;; k" := (bind c (fun x => let 'pat := x in k))
  (at level 61, pat pattern, c at next level, right associativity) : prog_scope.
Notation "c ;;; k" := (bind c (fun _ => k))
  (at level 61, right associativity) : prog_scope.
Open Scope prog_scope.

(** The message of Go's run-time panic on a nil pointer. *)
Definition nil_deref : string := "invalid memory address or nil pointer dereference".

(** [p.f] through a pointer: a nil pointer panics. *)
Definition deref {A B : Type} (p : option A) (k : A -> Prog B) : Prog B :=
  match p with
  | Some a => k a
  | None => Panic nil_deref
  end.

(** [args[0]]: an empty slice panics. *)
Definition index0 {B : Type} (args : list string) (k : string -> Prog B) : Prog B :=
  match args with
  | a :: _ => k a
  | [] => Panic "index out of range [0] with length 0"
  end.

(** [if err != nil { return err }]. *)
Notation "'check' err ;; k" :=
  (match err with Some e => Ret (Some e) | None => k end)
  (at level 61, err at next level, right associativity) : prog_scope.

(** ** Running a program *)

Inductive Entry : Type :=
  Did (X : Type) (e : Ev X) (r : X).
Arguments Did {X} e r.

Definition trace : Type := list Entry.

Inductive outcome (A : Type) : Type :=
| Done (a : A)
| Crashed (why : string).
Arguments Done {A} a.
Arguments Crashed {A} why.

Definition handler (W : Type) : Type := forall X : Type, Ev X -> W -> X * W.

Fixpoint run {W A : Type} (h : handler W) (p : Prog A) (w : W)
  : outcome A * W * trace :=
  match p with
  | Ret a => (Done a, w, [])
  | Panic why => (Crashed why, w, [])
  | Call e k =>
      let '(r, w1) := h _ e w in
      let '(o, w2, t) := run h (k r) w1 in
      (o, w2, Did e r :: t)
  end.

(** ** The commands of [cmd.go] *)

Section Commands.

Context {lib : Lib}.

Definition newline : string := String (ascii_of_nat 10) EmptyString.

(** [func current], lines 216-245: the keg a command works on, or an error. *)
Definition current (x : option Cmd) : Prog (option Local * option error) :=
  (* if we have an env it beats config settings *)
  name <- call (Getenv "KEG_CURRENT") ;;
  '(dir, _) <- call (ConfC x ("map." ++ name)) ;;
  if negb (String.eqb dir "" || String.eqb dir "null") then
    dir <- call (Tilde2Home dir) ;;
    Ret (Some (mkLocal dir name), None)
  else
  (* check if current working directory has a keg *)
  '(dir, _) <- call Getwd ;;
  found <- call (Exists (Join [dir; "keg"])) ;;
  if found then
    Ret (Some (mkLocal dir (Base dir)), None)
  else
  (* check vars and conf *)
  '(name, _) <- call (VarGet x "current") ;;
  let nothing := Ret (None, Some (Errorf "no kegs found" [])) in
  if negb (String.eqb name "") then
    '(dir, _) <- call (ConfC x ("map." ++ name)) ;;
    if negb (String.eqb dir "" || String.eqb dir "null") then
      dir <- call (Tilde2Home dir) ;;
      Ret (Some (mkLocal dir name), None)
    else nothing
  else nothing.

(** [currentCmd.Call], lines 118-125. *)
Definition currentCmd (x : Cmd) (args : list string) : Prog (option error) :=
  '(keg, err) <- current (Caller x) ;;
  check err ;;
  deref keg (fun l =>
  call (TermPrint (AStr (LName l))) ;;;
  Ret None).

(** [titleCmd.Call], lines 134-154. *)
Definition titleCmd (x : Cmd) (args : list string) : Prog (option error) :=
  let args := if (length args =? 0)%nat then (args ++ [""])%list else args in
  '(keg, err) <- current (Caller x) ;;
  check err ;;
  let str := strings_Join args " " in
  deref keg (fun l =>
  '(dex, err) <- call (ReadDex (Path l)) ;;
  check err ;;
  interactive <- call IsInteractive ;;
  if interactive then
    call (Page (Pretty (WithTitleText dex str))) ;;; Ret None
  else
    call (FmtPrint (AsIncludes (WithTitleText dex str))) ;;; Ret None).

(** [dirCmd.Call], lines 164-177. *)
Definition dirCmd (x : Cmd) (args : list string) : Prog (option error) :=
  '(keg, err) <- current (Caller x) ;;
  check err ;;
  if (0 <? length args)%nat then
    deref keg (fun l =>
    '(dex, _) <- call (ReadDex (Path l)) ;;
    choice <- call (ChooseWithTitleText dex (strings_Join args " ")) ;;
    deref choice (fun c =>
    call (TermPrint (AStr (Join [Path l; Itoa (N c)]))) ;;;
    Ret None))
  else
    deref keg (fun l =>
    call (TermPrint (AStr (Path l))) ;;;
    Ret None).

(** [deleteCmd.Call], lines 187-213. *)
Definition deleteCmd (x : Cmd) (args : list string) : Prog (option error) :=
  '(keg, err) <- current (Caller x) ;;
  check err ;;
  index0 args (fun id =>
  id <- (if String.eqb id "last" then
           deref keg (fun l =>
           n <- call (Last (Path l)) ;;
           match n with
           | Some e => Ret (ID e)
           | None => Ret id
           end)
         else Ret id) ;;
  match snd (Atoi id) with
  | Some _ => Ret (Some (UsageError x))
  | None =>
      deref keg (fun l =>
      let dir := Join [Path l; id] in
      call (LogPrintln ["deleting"; dir]) ;;;
      err <- call (RemoveAll dir) ;;
      check err ;;
      err <- call (MakeDex (Path l)) ;;
      check err ;;
      call (Publish (Path l)))
  end).

(** [dexUpdateCmd.Call], lines 257-263. *)
Definition dexUpdateCmd (x : Cmd) (args : list string) : Prog (option error) :=
  deref (Caller x) (fun c =>
  '(keg, err) <- current (Caller c) ;;
  check err ;;
  deref keg (fun l =>
  call (MakeDex (Path l)))).

(** The COUNT of [latestCmd.Call], lines 278-293: the count and the error
    on which the command returns at once. *)
Definition latestCount (x : Cmd) (args : list string) : Prog (Z * option error) :=
  match args with
  | a :: _ => Ret (Atoi a)
  | [] =>
      '(def, err) <- call (VarGet (Some x) "default") ;;
      match err with
      | None => if negb (String.eqb def "") then Ret (Atoi def) else Ret (1, None)
      | Some _ => Ret (1, None)
      end
  end.

(** [latestCmd.Call], lines 277-316. *)
Definition latestCmd (x : Cmd) (args : list string) : Prog (option error) :=
  '(n, err) <- latestCount x args ;;
  check err ;;
  '(keg, err) <- current (Caller x) ;;
  check err ;;
  deref keg (fun l =>
  let path := Join [Path l; "dex/latest.md"] in
  found <- call (Exists path) ;;
  if negb found then
    Ret (Some (Errorf "dex/latest.md file does not exist" []))
  else
  '(lines, err) <- call (FileHead path n) ;;
  check err ;;
  '(dex, err) <- call (ParseDex (strings_Join lines newline)) ;;
  match err with
  | Some _ => Ret None
  | None =>
      interactive <- call IsInteractive ;;
      if interactive then
        call (FmtPrint (Pretty dex)) ;;; Ret None
      else
        call (FmtPrint (AsIncludes dex)) ;;; Ret None
  end).

(** Lines 406-422 of [editCmd.Call]: what the command does once [id] is
    settled. *)
Definition editNode (keg : option Local) (id : string) : Prog (option error) :=
  deref keg (fun l =>
  let path := Join [Path l; id; "README.md"] in
  found <- call (Exists path) ;;
  if negb found then
    Ret (Some (Errorf "content node (%s) does not exist in %q" [id; LName l]))
  else
  err <- call (FileEdit path) ;;
  check err ;;
  empty <- call (FileIsEmpty path) ;;
  err <- (if empty then call (RemoveAll (Dir path)) else Ret None) ;;
  check err ;;
  (* FIXME: shouldn't make the entire dex every time *)
  err <- call (MakeDex (Path l)) ;;
  check err ;;
  call (Publish (Path l))).

(** [editCmd.Call], lines 375-423. *)
Definition editCmd (x : Cmd) (args : list string) : Prog (option error) :=
  if (length args =? 0)%nat then call (HelpCall x args) else
  interactive <- call IsInteractive ;;
  if negb interactive then titleCmd x args else
  '(keg, err) <- current (Caller x) ;;
  check err ;;
  index0 args (fun id =>
  if String.eqb id "last" then
    deref keg (fun l =>
    n <- call (Last (Path l)) ;;
    match n with
    | Some e => editNode keg (ID e)
    | None => editNode keg id
    end)
  else
    match snd (Atoi id) with
    | None => editNode keg id
    | Some _ =>
        deref keg (fun l =>
        '(dex, err) <- call (ReadDex (Path l)) ;;
        check err ;;
        let key := strings_Join args " " in
        choice <- call (ChooseWithTitleText dex key) ;;
        match choice with
        | None => Ret (Some (Errorf "unable to choose a title" []))
        | Some c => editNode keg (Itoa (N c))
        end)
    end).

(** [createCmd.Call], lines 433-454. *)
Definition createCmd (x : Cmd) (args : list string) : Prog (option error) :=
  '(keg, err) <- current (Caller x) ;;
  check err ;;
  deref keg (fun l =>
  '(entry, err) <- call (MakeNode (Path l)) ;;
  check err ;;
  err <- (match args with
          | a :: _ =>
              if String.eqb a "sample" then call (WriteSample (Path l) entry)
              else Ret None
          | [] => Ret None
          end) ;;
  check err ;;
  deref entry (fun e =>
  err <- call (Edit (Path l) (N e)) ;;
  check err ;;
  err <- call (DexUpdate (Path l) entry) ;;
  check err ;;
  call (Publish (Path l)))).

(** [randomCmd.Call], lines 534-555.  The error of [ReadDex] is assigned
    and not read. *)
Definition randomCmd (x : Cmd) (args : list string) : Prog (option error) :=
  let args := if (length args =? 0)%nat then (args ++ ["edit"])%list else args in
  '(keg, err) <- current (Caller x) ;;
  check err ;;
  deref keg (fun l =>
  '(dex, _) <- call (ReadDex (Path l)) ;;
  r <- call (Random dex) ;;
  index0 args (fun a =>
  if String.eqb a "id" then
    deref r (fun e => call (TermPrint (AInt (N e))) ;;; Ret None)
  else if String.eqb a "title" then
    deref r (fun e => call (TermPrint (AStr (T e))) ;;; Ret None)
  else if String.eqb a "edit" then
    deref r (fun e => editCmd x [Itoa (N e)])
  else if String.eqb a "dir" then
    deref r (fun e => call (TermPrint (AStr (Join [Itoa (N e)]))) ;;; Ret None)
  else Ret None)).

End Commands.

(** ** The index queries, from the spec *)

Definition lower_ascii (c : ascii) : ascii :=
  let n := nat_of_ascii c in
  if ((65 <=? n) && (n <=? 90))%nat then ascii_of_nat (n + 32) else c.

Fixpoint lower (s : string) : string :=
  match s with
  | EmptyString => EmptyString
  | String c s' => String (lower_ascii c) (lower s')
  end.

Fixpoint contains (s sub : string) : bool :=
  String.prefix sub s ||
  match s with
  | EmptyString => false
  | String _ s' => contains s' sub
  end.

(** Modelled from the spec: [Dex.WithTitleText] is not in [cmd.go].  Spec
    4.3, FilterByTitleSubstring: case-insensitive substring match against
    the title; the empty text matches everything; the order is kept. *)
Definition WithTitleText_spec (d : Dex) (text : string) : Dex :=
  filter (fun e => contains (lower (T e)) (lower text)) d.

(** Modelled from the spec: [Dex.Random] is not in [cmd.go].  Spec 4.3,
    Random: a selection over all entries, nil on an empty Dex; [pick] is
    the substitutable source of randomness. *)
Definition Random_spec (pick : nat) (d : Dex) : option DexEntry :=
  match d with
  | [] => None
  | _ => nth_error d (pick mod length d)%nat
  end.

(** Modelled from the spec: [Dex.ChooseWithTitleText] is not in [cmd.go].
    Spec 4.3, ChooseByTitleSubstring: the same filter; one match is
    returned without a prompt, no match gives nil, several matches give the
    user's selection [chosen], nil when the user aborts. *)
Definition ChooseWithTitleText_spec (chosen : option nat) (d : Dex) (text : string)
  : option DexEntry :=
  match WithTitleText_spec d text with
  | [] => None
  | [e] => Some e
  | hits =>
      match chosen with
      | Some i => nth_error hits i
      | None => None
      end
  end.

(** A nil [*Dex] holds no entry. *)
Definition entries (d : option Dex) : Dex :=
  match d with
  | Some l => l
  | None => []
  end.

Definition slash : ascii := "/"%char.

Fixpoint after_slash (l : list ascii) : list ascii :=
  match l with
  | [] => []
  | c :: l' => if Ascii.eqb c slash then l' else after_slash l'
  end.

Fixpoint until_slash (l : list ascii) : list ascii :=
  match l with
  | [] => []
  | c :: l' => if Ascii.eqb c slash then [] else c :: until_slash l'
  end.

(** Modelled from the spec: the library functions of [Lib] on clean,
    slash-separated paths, the node id of spec section 3 as the directory
    name, and one line per entry for the two renderings of spec 4.3 (the
    spec leaves the line formats open). *)
#[export] Instance spec_lib : Lib := {|
  Join elems := String.concat "/" (filter (fun s => negb (String.eqb s "")) elems);
  Base p := string_of_list_ascii (rev (until_slash (rev (list_ascii_of_string p))));
  Dir p := string_of_list_ascii (rev (after_slash (rev (list_ascii_of_string p))));
  ID e := Itoa (N e);
  WithTitleText d text := option_map (fun l => WithTitleText_spec l text) d;
  Pretty d :=
    String.concat "" (map (fun e => Itoa (N e) ++ " " ++ T e ++ newline) (entries d));
  AsIncludes d :=
    String.concat ""
      (map (fun e => "* [" ++ T e ++ "](../" ++ Itoa (N e) ++ ")" ++ newline) (entries d))
|}.

(** ** An environment given by its answers *)

(** What the collaborators answer in one situation: the process
    environment, the configuration, the files that exist, the persisted
    index, the terminal and the user. *)
Record Stub : Type := mkStub {
  env : string -> string;              (* environment variables *)
  conf : string -> string;             (* configuration queries *)
  vars : string -> string;             (* persisted vars *)
  cwd : string;                        (* working directory *)
  files : list string;                 (* paths that exist *)
  empty : list string;                 (* documents left empty by the editor *)
  tty : bool;                          (* standard output is a terminal *)
  index : option Dex;                  (* the readable index, if any *)
  latest : list string;                (* lines of dex/latest.md *)
  parses : bool;                       (* ParseDex accepts those lines *)
  pick : nat;                          (* source of randomness *)
  chosen : option nat                  (* answer to the numbered prompt *)
}.

Definition mem (s : string) (l : list string) : bool :=
  existsb (String.eqb s) l.

Definition no_index : option error :=
  Some (Foreign "open dex: no such file or directory").

Definition stub (s : Stub) : handler unit :=
  fun X (e : Ev X) (w : unit) =>
    (match e in Ev X return X with
     | Getenv key => env s key
     | ConfC _ q => (conf s q, None)
     | VarGet _ key => (vars s key, None)
     | Getwd => (cwd s, None)
     | Exists path => mem path (files s)
     | Tilde2Home dir => dir
     | IsInteractive => tty s
     | TermPrint _ | FmtPrint _ | Page _ | LogPrintln _ => tt
     | HelpCall _ _ => None
     | ReadDex _ =>
         match index s with
         | Some d => (Some d, None)
         | None => (None, no_index)
         end
     | ParseDex _ =>
         if parses s then (index s, None)
         else (None, Some (Foreign "bad line"))
     | Last _ => hd_error (entries (index s))
     | ChooseWithTitleText d key => ChooseWithTitleText_spec (chosen s) (entries d) key
     | Random d => Random_spec (pick s) (entries d)
     | MakeDex _ | DexUpdate _ _ | Publish _ | WriteSample _ _
     | Edit _ _ | FileEdit _ | RemoveAll _ => None
     | MakeNode _ =>
         (Some (mkEntry 0 (1 + fold_right Z.max 0 (map N (entries (index s)))) ""), None)
     | FileIsEmpty path => mem path (empty s)
     | FileHead _ n => (firstn (Z.to_nat n) (latest s), None)
     end, w).

(** ** Classes of calls *)

(** Calls that change the node tree. *)
Definition changes_store (c : Entry) : bool :=
  match c with
  | Did e _ =>
      match e with
      | RemoveAll _ | FileEdit _ | Edit _ _ | MakeNode _ | WriteSample _ _ => true
      | _ => false
      end
  end.

(** Calls that rebuild the index. *)
Definition rebuilds (c : Entry) : bool :=
  match c with
  | Did e _ =>
      match e with
      | MakeDex _ | DexUpdate _ _ => true
      | _ => false
      end
  end.

Definition publishes (c : Entry) : bool :=
  match c with
  | Did e _ =>
      match e with
      | Publish _ => true
      | _ => false
      end
  end.

(** Calls that change the node tree, the index artifacts or the published
    state. *)
Definition mutates (c : Entry) : bool :=
  changes_store c || rebuilds c || publishes c.

(** Calls that write to standard output. *)
Definition is_output (c : Entry) : bool :=
  match c with
  | Did e _ =>
      match e with
      | TermPrint _ | FmtPrint _ | Page _ => true
      | _ => false
      end
  end.

(** Calls that read or parse the text of the index. *)
Definition is_parse (c : Entry) : bool :=
  match c with
  | Did e _ =>
      match e with
      | ParseDex _ | FileHead _ _ | ReadDex _ => true
      | _ => false
      end
  end.

(** The calls [current] makes: questions to the environment. *)
Definition asks_env (c : Entry) : bool :=
  match c with
  | Did e _ =>
      match e with
      | Getenv _ | ConfC _ _ | VarGet _ _ | Getwd | Exists _ | Tilde2Home _ => true
      | _ => false
      end
  end.

(** A directory value of the configuration that names a keg. *)
Definition usable (dir : string) : bool :=
  negb (String.eqb dir "" || String.eqb dir "null").

(** The resolution order of the current keg, in the words of the help text
    of [currentCmd]: the calls made, and the keg or the error they give. *)
Inductive resolves {lib : Lib} (x : option Cmd)
  : trace -> option Local * option error -> Prop :=
| by_env name dir e home :
    usable dir = true ->
    resolves x
      [Did (Getenv "KEG_CURRENT") name;
       Did (ConfC x ("map." ++ name)) (dir, e);
       Did (Tilde2Home dir) home]
      (Some (mkLocal home name), None)
| by_cwd name dir e wd e' :
    usable dir = false ->
    resolves x
      [Did (Getenv "KEG_CURRENT") name;
       Did (ConfC x ("map." ++ name)) (dir, e);
       Did Getwd (wd, e');
       Did (Exists (Join [wd; "keg"])) true]
      (Some (mkLocal wd (Base wd)), None)
| by_var name dir e wd e' cur e'' dir' e3 home :
    usable dir = false ->
    cur <> "" ->
    usable dir' = true ->
    resolves x
      [Did (Getenv "KEG_CURRENT") name;
       Did (ConfC x ("map." ++ name)) (dir, e);
       Did Getwd (wd, e');
       Did (Exists (Join [wd; "keg"])) false;
       Did (VarGet x "current") (cur, e'');
       Did (ConfC x ("map." ++ cur)) (dir', e3);
       Did (Tilde2Home dir') home]
      (Some (mkLocal home cur), None)
| no_var name dir e wd e' e'' :
    usable dir = false ->
    resolves x
      [Did (Getenv "KEG_CURRENT") name;
       Did (ConfC x ("map." ++ name)) (dir, e);
       Did Getwd (wd, e');
       Did (Exists (Join [wd; "keg"])) false;
       Did (VarGet x "current") ("", e'')]
      (None, Some (Errorf "no kegs found" []))
| no_map name dir e wd e' cur e'' dir' e3 :
    usable dir = false ->
    cur <> "" ->
    usable dir' = false ->
    resolves x
      [Did (Getenv "KEG_CURRENT") name;
       Did (ConfC x ("map." ++ name)) (dir, e);
       Did Getwd (wd, e');
       Did (Exists (Join [wd; "keg"])) false;
       Did (VarGet x "current") (cur, e'');
       Did (ConfC x ("map." ++ cur)) (dir', e3)]
      (None, Some (Errorf "no kegs found" [])).

(** ** Answers *)

(** [term.IsInteractive()] answered true. *)
Definition on_terminal (c : Entry) : bool :=
  match c with
  | Did e r =>
      match e in Ev X return X -> bool with
      | IsInteractive => fun r => r
      | _ => fun _ => false
      end r
  end.

(** [file.IsEmpty(path)] answered true. *)
Definition found_empty (c : Entry) : bool :=
  match c with
  | Did e r =>
      match e in Ev X return X -> bool with
      | FileIsEmpty _ => fun r => r
      | _ => fun _ => false
      end r
  end.

(** [file.Edit(path)] answered nil: the editor was run and came back. *)
Definition edited (c : Entry) : bool :=
  match c with
  | Did e r =>
      match e in Ev X return X -> bool with
      | FileEdit _ => fun r => match r with Some _ => false | None => true end
      | _ => fun _ => false
      end r
  end.

(** [ParseDex] answered with an error. *)
Definition parse_failed (c : Entry) : bool :=
  match c with
  | Did e r =>
      match e in Ev X return X -> bool with
      | ParseDex _ => fun r => match snd r with Some _ => true | None => false end
      | _ => fun _ => false
      end r
  end.

(** [ReadDex] or [ParseDex] answered without an error. *)
Definition loaded (c : Entry) : bool :=
  match c with
  | Did e r =>
      match e in Ev X return X -> bool with
      | ReadDex _ | ParseDex _ =>
          fun r => match snd r with Some _ => false | None => true end
      | _ => fun _ => false
      end r
  end.

(** [Last] answered with a node. *)
Definition last_found (c : Entry) : bool :=
  match c with
  | Did e r =>
      match e in Ev X return X -> bool with
      | Last _ => fun r => match r with Some _ => true | None => false end
      | _ => fun _ => false
      end r
  end.

(** [Random] answered nil. *)
Definition random_nil (c : Entry) : bool :=
  match c with
  | Did e r =>
      match e in Ev X return X -> bool with
      | Random _ => fun r => match r with Some _ => false | None => true end
      | _ => fun _ => false
      end r
  end.

(** [ChooseWithTitleText] answered nil. *)
Definition no_choice (c : Entry) : bool :=
  match c with
  | Did e r =>
      match e in Ev X return X -> bool with
      | ChooseWithTitleText _ _ =>
          fun r => match r with Some _ => false | None => true end
      | _ => fun _ => false
      end r
  end.

(** ** Properties of a run *)

(** The run ends by rebuilding the index of keg [kp] and publishing it,
    after a call that changed the node tree. *)
Definition rebuilt_then_published (tr : trace) : Prop :=
  exists pre kp r,
    tr = (pre ++ [r; Did (Publish kp) None])%list /\
    (r = Did (MakeDex kp) None \/ exists entry, r = Did (DexUpdate kp entry) None) /\
    existsb changes_store pre = true.

(** The editor left the document of node [id] empty: the directory of the
    document is removed by the next call, no rebuild of the index comes
    before it; when the removal fails the command returns its error at
    once, and when it succeeds the rebuild of the index is the next call. *)
Definition empty_node_removed {lib : Lib} (o : outcome (option error)) (tr : trace)
  : Prop :=
  exists pre keg id rerr post,
    let path := Join [Path keg; id; "README.md"] in
    tr = (pre ++ Did (FileIsEmpty path) true
              :: Did (RemoveAll (Dir path)) rerr :: post)%list /\
    existsb rebuilds pre = false /\
    match rerr with
    | Some e => post = [] /\ o = Done (Some e)
    | None => exists r, hd_error post = Some (Did (MakeDex (Path keg)) r)
    end.

(** After the editor came back without error, the next call asks whether
    the document it edited is empty. *)
Definition emptiness_checked (tr : trace) : Prop :=
  exists pre path found post,
    tr = (pre ++ Did (FileEdit path) None
              :: Did (FileIsEmpty path) found :: post)%list.

(** The call that shows [d]: [Pretty] on a terminal (through the pager for
    [titles]), [AsIncludes] otherwise. *)
Definition rendering {lib : Lib} (pager tty : bool) (d : option Dex) : Entry :=
  if tty then
    if pager then Did (Page (Pretty d)) tt else Did (FmtPrint (Pretty d)) tt
  else Did (FmtPrint (AsIncludes d)) tt.

(** The text [titles] filters with: the arguments joined by spaces, the
    empty string when there is none. *)
Definition title_key (args : list string) : string :=
  strings_Join (if (length args =? 0)%nat then (args ++ [""])%list else args) " ".

(** [titles] ends by loading the index, asking for the terminal and showing
    the loaded index filtered by the key; nothing else is written. *)
Definition titles_show {lib : Lib} (args : list string)
  (o : outcome (option error)) (tr : trace) : Prop :=
  exists pre kp d tty,
    tr = (pre ++ [Did (ReadDex kp) (d, None); Did IsInteractive tty;
                  rendering true tty (WithTitleText d (title_key args))])%list /\
    existsb is_output pre = false /\ o = Done None.

(** [latest] ends by parsing the index, asking for the terminal and showing
    the parsed index; nothing else is written. *)
Definition latest_shows {lib : Lib}
  (o : outcome (option error)) (tr : trace) : Prop :=
  exists pre text d tty,
    tr = (pre ++ [Did (ParseDex text) (d, None); Did IsInteractive tty;
                  rendering false tty d])%list /\
    existsb is_output pre = false /\ o = Done None.

(** The modes of [random]. *)
Definition random_modes : list (list string) :=
  [["id"]; ["title"]; ["edit"]; ["dir"]; []].

(** Calls that do not mutate leave the world of the handler as it is. *)
Definition frame {W : Type} (h : handler W) : Prop :=
  forall (X : Type) (e : Ev X) (w : W),
    mutates (Did e (fst (h X e w))) = false -> snd (h X e w) = w.

(** ** Scenarios *)

Definition root : Cmd := mkCmd "keg" None.

(** The command [name] of the [keg] command tree. *)
Definition sub (name : string) : Cmd := mkCmd name (Some root).

Definition alpha : DexEntry := mkEntry 30 3 "Alpha".
Definition gamma : DexEntry := mkEntry 20 9 "Gamma".
Definition beta : DexEntry := mkEntry 10 7 "Beta".

(** The keg [main] at [/k], chosen by [KEG_CURRENT], with the three nodes
    of the scenario of spec section 8, on a terminal. *)
Definition main_keg : Stub := {|
  env key := if String.eqb key "KEG_CURRENT" then "main" else "";
  conf q := if String.eqb q "map.main" then "/k" else "";
  vars key := "";
  cwd := "/home/u";
  files := ["/k/keg"; "/k/dex/latest.md"; "/k/3/README.md"; "/k/9/README.md";
            "/k/7/README.md"];
  empty := [];
  tty := true;
  index := Some [alpha; gamma; beta];
  latest := ["* [Alpha](../3)"; "* [Gamma](../9)"; "* [Beta](../7)"];
  parses := true;
  pick := 4;
  chosen := None
|}.

Definition with_index (s : Stub) (d : option Dex) : Stub :=
  mkStub (env s) (conf s) (vars s) (cwd s) (files s) (empty s) (tty s) d
    (latest s) (parses s) (pick s) (chosen s).

Definition with_files (s : Stub) (fs : list string) : Stub :=
  mkStub (env s) (conf s) (vars s) (cwd s) fs (empty s) (tty s) (index s)
    (latest s) (parses s) (pick s) (chosen s).

Definition with_empty (s : Stub) (docs : list string) : Stub :=
  mkStub (env s) (conf s) (vars s) (cwd s) (files s) docs (tty s) (index s)
    (latest s) (parses s) (pick s) (chosen s).

Definition with_parses (s : Stub) (ok : bool) : Stub :=
  mkStub (env s) (conf s) (vars s) (cwd s) (files s) (empty s) (tty s) (index s)
    (latest s) ok (pick s) (chosen s).

Definition piped (s : Stub) : Stub :=
  mkStub (env s) (conf s) (vars s) (cwd s) (files s) (empty s) false (index s)
    (latest s) (parses s) (pick s) (chosen s).

(** No keg anywhere: no variable, no configuration, no marker file. *)
Definition nowhere : Stub := {|
  env key := ""; conf q := ""; vars key := ""; cwd := "/tmp"; files := [];
  empty := []; tty := true; index := None; latest := []; parses := true;
  pick := 0; chosen := None
|}.

(** The keg [main] whose index cannot be read, and with an empty index. *)
Definition unreadable : Stub := with_index main_keg None.
Definition blank : Stub := with_index main_keg (Some []).

(** [dex/latest.md] holds a line that [ParseDex] rejects. *)
Definition broken : Stub := with_parses main_keg false.

(** The editor leaves the document of node 3 empty. *)
Definition emptied : Stub := with_empty main_keg ["/k/3/README.md"].

(** The keg has no [dex/latest.md]. *)
Definition no_latest : Stub := with_files main_keg ["/k/keg"; "/k/3/README.md"].

Definition main_resolution : trace :=
  Eval vm_compute in snd (run (stub main_keg) (current (Some root)) tt).

Definition create_sample_trace : trace :=
  Eval vm_compute in snd (run (stub main_keg) (createCmd (sub "create") ["sample"]) tt).

Definition delete_9_trace : trace :=
  Eval vm_compute in snd (run (stub main_keg) (deleteCmd (sub "delete") ["9"]) tt).

Definition edit_3_trace : trace :=
  Eval vm_compute in snd (run (stub main_keg) (editCmd (sub "edit") ["3"]) tt).

Definition titles_trace : trace :=
  Eval vm_compute in snd (run (stub (piped main_keg)) (titleCmd (sub "titles") []) tt).

Definition latest_2_trace : trace :=
  Eval vm_compute in snd (run (stub main_keg) (latestCmd (sub "latest") ["2"]) tt).

Definition delete_abc_trace : trace :=
  Eval vm_compute in snd (run (stub main_keg) (deleteCmd (sub "delete") ["abc"]) tt).

Definition broken_latest_trace : trace :=
  Eval vm_compute in snd (run (stub broken) (latestCmd (sub "latest") ["2"]) tt).

Definition emptied_edit_trace : trace :=
  Eval vm_compute in snd (run (stub emptied) (editCmd (sub "edit") ["3"]) tt).

(** ** Further properties of a run *)

(** The command resolves the keg against its caller before anything else;
    without a keg it makes no other call and returns the error of
    [current]. *)
Definition begins_with_keg {lib : Lib} (x : Cmd)
  (o : outcome (option error)) (tr : trace) : Prop :=
  exists tc post res,
    tr = (tc ++ post)%list /\ resolves (Caller x) tc res /\
    (fst res = None -> post = [] /\ o = Done (snd res)).

(** What [current] (the command) does after [current] (the function):
    one line with the name of the keg, or nothing and the error. *)
Definition prints_keg_name {lib : Lib} (x : Cmd)
  (o : outcome (option error)) (tr : trace) : Prop :=
  exists tc res,
    resolves (Caller x) tc res /\
    match res with
    | (Some l, _) =>
        tr = (tc ++ [Did (TermPrint (AStr (LName l))) tt])%list /\ o = Done None
    | (None, e) => tr = tc /\ o = Done e
    end.

(** What [dir] does: without argument it prints the path of the keg and
    does not read the index; with arguments it reads the index, asks for
    the node whose title holds the arguments joined by spaces, and prints
    the directory of that node, or panics when there is none. *)
Definition prints_dir {lib : Lib} (x : Cmd) (args : list string)
  (o : outcome (option error)) (tr : trace) : Prop :=
  exists tc res,
    resolves (Caller x) tc res /\
    match res with
    | (None, e) => tr = tc /\ o = Done e
    | (Some l, _) =>
        match args with
        | [] => tr = (tc ++ [Did (TermPrint (AStr (Path l))) tt])%list /\ o = Done None
        | _ :: _ =>
            exists d err choice,
              tr = (tc ++ Did (ReadDex (Path l)) (d, err)
                       :: Did (ChooseWithTitleText d (strings_Join args " ")) choice
                       :: match choice with
                          | Some c =>
                              [Did (TermPrint (AStr (Join [Path l; Itoa (N c)]))) tt]
                          | None => []
                          end)%list /\
              o = match choice with
                  | Some _ => Done None
                  | None => Crashed nil_deref
                  end
        end
    end.

(** What [dex update] does: it panics without a caller; it resolves the keg
    against the caller of its caller, rebuilds the index of that keg and
    returns what [MakeDex] answers. *)
Definition updates_dex {lib : Lib} (x : Cmd)
  (o : outcome (option error)) (tr : trace) : Prop :=
  match Caller x with
  | None => tr = [] /\ o = Crashed nil_deref
  | Some c =>
      exists tc res,
        resolves (Caller c) tc res /\
        match res with
        | (Some l, _) =>
            exists r, tr = (tc ++ [Did (MakeDex (Path l)) r])%list /\ o = Done r
        | (None, e) => tr = tc /\ o = Done e
        end
  end.

(** The message of Go's run-time panic on [args[0]] of an empty slice. *)
Definition index_panic : string := "index out of range [0] with length 0".

Definition titles_ab_trace : trace :=
  Eval vm_compute in snd (run (stub main_keg) (titleCmd (sub "titles") ["a"; "b"]) tt).

Definition current_trace : trace :=
  Eval vm_compute in snd (run (stub main_keg) (currentCmd (sub "current") []) tt).

Definition dir_alpha_trace : trace :=
  Eval vm_compute in snd (run (stub main_keg) (dirCmd (sub "dir") ["alpha"]) tt).

Definition dex_update_trace : trace :=
  Eval vm_compute in
    snd (run (stub main_keg) (dexUpdateCmd (mkCmd "update" (Some (sub "dex"))) []) tt).

Definition delete_nothing_trace : trace :=
  Eval vm_compute in snd (run (stub main_keg) (deleteCmd (sub "delete") []) tt).

(** The error a collaborator answered with, for the calls whose error the
    commands read.  The errors that the code drops are no error here:
    those of [x.C], [x.Get] and [os.Getwd] in [current], that of [x.Get]
    on the var [default] and that of [ParseDex] in [latest]. *)
Definition error_of (c : Entry) : option error :=
  match c with
  | Did e r =>
      match e in Ev X return X -> option error with
      | HelpCall _ _ | MakeDex _ | DexUpdate _ _ | Publish _ | WriteSample _ _
      | Edit _ _ | FileEdit _ | RemoveAll _ => fun r => r
      | ReadDex _ | MakeNode _ => fun r => snd r
      | FileHead _ _ => fun r => snd r
      | _ => fun _ => None
      end r
  end.

Definition failed (c : Entry) : bool :=
  match error_of c with
  | Some _ => true
  | None => false
  end.

(** The run ended on the first call that answered with an error, and
    returned that error. *)
Definition stopped_at_error (o : outcome (option error)) (tr : trace) : Prop :=
  exists pre c e,
    tr = (pre ++ [c])%list /\ error_of c = Some e /\ o = Done (Some e) /\
    existsb failed pre = false.

(** [Publish] is called at most once, as the last call, right after a
    rebuild of the index of the same keg that answered nil; the command
    returns what [Publish] answers. *)
Definition publishes_last (o : outcome (option error)) (tr : trace) : Prop :=
  existsb publishes tr = false \/
  exists pre kp rb r,
    tr = (pre ++ [rb; Did (Publish kp) r])%list /\
    (rb = Did (MakeDex kp) None \/ exists entry, rb = Did (DexUpdate kp entry) None) /\
    existsb publishes pre = false /\ o = Done r.








Definition entry_eqb (a b : DexEntry) : bool :=
  Z.eqb (U a) (U b) && Z.eqb (N a) (N b) && String.eqb (T a) (T b).

(** [MakeNode] answered with a node and no error. *)
Definition node_made (c : Entry) : bool :=
  match c with
  | Did e r =>
      match e in Ev X return X -> bool with
      | MakeNode _ =>
          fun r => match r with (Some _, None) => true | _ => false end
      | _ => fun _ => false
      end r
  end.

Definition writes_sample (c : Entry) : bool :=
  match c with
  | Did e _ =>
      match e with
      | WriteSample _ _ => true
      | _ => false
      end
  end.

(** A call that [create] makes on the node [e] it made in keg [kp]: the
    sample, the editor, the update of the index, the publication. *)
Definition on_made (kp : string) (e : DexEntry) (c : Entry) : bool :=
  match c with
  | Did ev _ =>
      match ev with
      | WriteSample p (Some e') | DexUpdate p (Some e') =>
          String.eqb p kp && entry_eqb e' e
      | Edit p n => String.eqb p kp && Z.eqb n (N e)
      | Publish p => String.eqb p kp
      | _ => false
      end
  end.

(** The calls of [create] once [MakeNode] has made a node: all of them are
    on that node and its keg, and the sample is written exactly when the
    first argument is [sample]. *)
Definition works_on_made_node (args : list string) (tr : trace) : Prop :=
  exists tc kp e rest,
    tr = (tc ++ Did (MakeNode kp) (Some e, None) :: rest)%list /\
    forallb asks_env tc = true /\
    forallb (on_made kp e) rest = true /\
    existsb writes_sample rest =
    match args with
    | a :: _ => String.eqb a "sample"
    | [] => false
    end.

(** A call of [file.Edit]: the editor is opened. *)
Definition opens (c : Entry) : bool :=
  match c with
  | Did e _ =>
      match e with
      | FileEdit _ => true
      | _ => false
      end
  end.

(** The editor is opened at most once, and right after [fs.Exists]
    answered true for the same path. *)
Definition opens_existing (tr : trace) : Prop :=
  existsb opens tr = false \/
  exists pre path r post,
    tr = (pre ++ Did (Exists path) true :: Did (FileEdit path) r :: post)%list /\
    existsb opens pre = false /\ existsb opens post = false.

(** [Random] answered with a node. *)
Definition random_some (c : Entry) : bool :=
  match c with
  | Did e r =>
      match e in Ev X return X -> bool with
      | Random _ => fun r => match r with Some _ => true | None => false end
      | _ => fun _ => false
      end r
  end.


(** A call of [ChooseWithTitleText] or of [Last]: the node is looked up by
    title or by recency. *)
Definition looks_up (c : Entry) : bool :=
  match c with
  | Did e _ =>
      match e with
      | ChooseWithTitleText _ _ | Last _ => true
      | _ => false
      end
  end.

(** What [random] prints for node [e] in mode [a], [edit] apart. *)
Definition random_prints {lib : Lib} (a : string) (e : DexEntry) : trace :=
  if String.eqb a "id" then [Did (TermPrint (AInt (N e))) tt]
  else if String.eqb a "title" then [Did (TermPrint (AStr (T e))) tt]
  else if String.eqb a "dir" then [Did (TermPrint (AStr (Join [Itoa (N e)]))) tt]
  else [].

(** [random] in a mode other than [edit], with a node: the index is read,
    the node drawn, and the mode decides the one line printed. *)
Definition random_shows {lib : Lib} (a : string)
  (o : outcome (option error)) (tr : trace) : Prop :=
  exists tc kp d err e,
    tr = (tc ++ Did (ReadDex kp) (d, err) :: Did (Random d) (Some e)
             :: random_prints a e)%list /\
    forallb asks_env tc = true /\ o = Done None.


Definition random_dir_trace : trace :=
  Eval vm_compute in snd (run (stub main_keg) (randomCmd (sub "random") ["dir"]) tt).


Definition piped_edit_trace : trace :=
  Eval vm_compute in snd (run (stub (piped main_keg)) (editCmd (sub "edit") ["3"]) tt).

(** ** The library functions on examples *)

Example Atoi_accepts : Atoi "12" = (12, None) /\ Atoi "-5" = (-5, None) /\ Atoi "+7" = (7, None).
Proof. repeat split. Qed.

Example Atoi_rejects :
  snd (Atoi "") <> None /\ snd (Atoi "last") <> None /\ snd (Atoi "1_0") <> None /\
  snd (Atoi "9223372036854775808") <> None.
Proof. repeat split; discriminate. Qed.

Example Itoa_prints : Itoa 0 = "0" /\ Itoa 305 = "305" /\ Itoa (-12) = "-12".
Proof. repeat split. Qed.

Example spec_lib_paths :
  Join ["/k"; "3"; "README.md"] = "/k/3/README.md" /\
  Dir "/k/3/README.md" = "/k/3" /\ Base "/home/u" = "u".
Proof. repeat split. Qed.

(** ** Runs *)

Section Runs.

Context {lib : Lib} {W : Type} (h : handler W).

Lemma run_bind (A B : Type) (p : Prog A) (k : A -> Prog B) (w : W) :
  run h (bind p k) w =
  match run h p w with
  | (Done a, w1, t1) => let '(o, w2, t2) := run h (k a) w1 in (o, w2, (t1 ++ t2)%list)
  | (Crashed why, w1, t1) => (Crashed why, w1, t1)
  end.
Proof.
  revert w; induction p as [a | why | X e k' IH]; intro w; cbn [bind run].
  - destruct (run h (k a) w) as [[o w2] t2]; reflexivity.
  - reflexivity.
  - destruct (h _ e w) as [r w1]. rewrite IH.
    destruct (run h (k' r) w1) as [[[a | why] w2] t1]; [ | reflexivity].
    destruct (run h (k a) w2) as [[o w3] t2]; reflexivity.
Qed.

End Runs.

Arguments run_bind {W} h {A B} p k w.

(** Runs the program in [H] symbolically, splitting on every answer and
    every test. *)
Ltac exec H :=
  repeat (try unfold deref, index0, call in H;
          cbn [run bind fst snd] in H;
          match type of H with
          | context [?h ?X ?e ?w] =>
              match type of h with handler _ => idtac end;
              let r := fresh "r" in let w' := fresh "w" in
              destruct (h X e w) as [r w'] eqn:?
          | context [match ?p with (_, _) => _ end] => is_var p; destruct p
          | context [if ?b then _ else _] => destruct b eqn:?
          | context [match ?o with Some _ => _ | None => _ end] => destruct o eqn:?
          | context [match ?l with nil => _ | cons _ _ => _ end] => destruct l eqn:?
          end).

Ltac finish H := injection H as <- <- <-.

Section Current.

Context {lib : Lib} {W : Type} (h : handler W).

Lemma current_resolves (x : option Cmd) (w w' : W) o tr :
  run h (current x) w = (o, w', tr) ->
  exists res, o = Done res /\ resolves x tr res.
Proof.
  intro H. unfold current in H.
  exec H; finish H; eexists; (split; [reflexivity | ]).
  - now apply by_env.
  - now apply by_cwd.
  - apply by_var; trivial.
    intros ->. discriminate.
  - apply no_map; trivial.
    intros ->. discriminate.
  - match goal with
    | E : negb (String.eqb ?s "") = false |- _ =>
        apply negb_false_iff, String.eqb_eq in E; subst s
    end.
    now apply no_var.
Qed.

(** What a command learns from [current]: a keg and no error, or the
    error and no keg; the calls only ask the environment. *)
Lemma current_cases (x : option Cmd) (w w' : W) o tr :
  run h (current x) w = (o, w', tr) ->
  forallb asks_env tr = true /\
  ((exists l, o = Done (Some l, None) /\ resolves x tr (Some l, None)) \/
   (o = Done (None, Some (Errorf "no kegs found" [])) /\
    resolves x tr (None, Some (Errorf "no kegs found" [])))).
Proof.
  intro H. apply current_resolves in H. destruct H as [res [-> R]].
  split; [destruct R; reflexivity | ].
  destruct R; [left | left | left | right | right];
    (eexists + idtac); (split; [reflexivity | ]); constructor; assumption.
Qed.

End Current.

Lemma forallb_existsb (P Q : Entry -> bool) (t : trace) :
  forallb P t = true ->
  (forall c, P c = true -> Q c = false) ->
  existsb Q t = false.
Proof.
  intros HP HQ. induction t as [| c t IH]; [reflexivity | ].
  cbn in HP |- *. apply andb_true_iff in HP. destruct HP as [Hc Ht].
  rewrite (HQ c Hc), (IH Ht). reflexivity.
Qed.

Lemma asks_env_only (c : Entry) :
  asks_env c = true ->
  mutates c = false /\ is_output c = false /\ is_parse c = false /\
  rebuilds c = false /\ changes_store c = false /\ found_empty c = false /\
  parse_failed c = false /\ loaded c = false /\ last_found c = false /\
  on_terminal c = false /\ random_nil c = false /\ no_choice c = false /\
  edited c = false.
Proof.
  destruct c as [X e r]; destruct e; cbn; intro H; try discriminate H;
    repeat split.
Qed.

Arguments current_cases {lib W} h x w w' o tr _.

(** No call of a run of [current] is of a kind [current] never makes. *)
Ltac env_quiet :=
  match goal with
  | Hq : forallb asks_env ?t = true |- existsb ?Q ?t = false =>
      apply (forallb_existsb asks_env Q t Hq);
      let c := fresh "c" in let Hc := fresh "Hc" in
      intros c Hc; apply asks_env_only in Hc; tauto
  end.

(** Runs a command in [H] up to its result: [current] by its cases, every
    other call by its answer. *)
Ltac go H :=
  repeat (try unfold deref, index0, call in H;
          cbn [run bind fst snd length Nat.eqb Nat.ltb Nat.leb negb] in H;
          first
            [ match type of H with
              | context [run ?h (bind (current ?x) ?k) ?w] =>
                  rewrite (run_bind h (current x) k w) in H;
                  let Hc := fresh "Hc" in
                  let Hq := fresh "Hq" in
                  let Hr := fresh "Hr" in
                  let l := fresh "keg" in
                  destruct (run h (current x) w) as [[? ?] ?] eqn:Hc;
                  apply (current_cases h) in Hc;
                  destruct Hc as [Hq [[l [-> Hr]] | [-> Hr]]]
              end
            | match type of H with
              | context [?h ?X ?e ?w] =>
                  match type of h with handler _ => idtac end;
                  let r := fresh "r" in let w' := fresh "w" in
                  destruct (h X e w) as [r w'] eqn:?;
                  try match type of r with unit => destruct r end
              | context [match ?p with (_, _) => _ end] => is_var p; destruct p
              | context [match Atoi ?s with (_, _) => _ end] =>
                  destruct (Atoi s) as [? ?] eqn:?
              | context [if negb ?b then _ else _] => destruct b eqn:?
              | context [if ?b then _ else _] => destruct b eqn:?
              | context [match ?o with Some _ => _ | None => _ end] => destruct o eqn:?
              | context [match ?l with nil => _ | cons _ _ => _ end] => destruct l eqn:?
              | context [match run ?h ?p ?w with (_, _) => _ end] =>
                  destruct (run h p w) as [[? ?] ?] eqn:?
              end ]);
  try unfold deref, index0, call in H;
  cbn [run bind fst snd length Nat.eqb Nat.ltb Nat.leb negb] in H;
  rewrite ?app_nil_r in H.

(** ** Mutating commands *)

Lemma ends_rebuilt (pre mid : trace) (kp : string) (r : Entry) :
  r = Did (MakeDex kp) None \/ (exists entry, r = Did (DexUpdate kp entry) None) ->
  existsb changes_store mid = true ->
  rebuilt_then_published (pre ++ mid ++ [r; Did (Publish kp) None])%list.
Proof.
  intros Hr Hm. exists (pre ++ mid)%list, kp, r. repeat split.
  - now rewrite app_assoc.
  - exact Hr.
  - rewrite existsb_app, Hm. apply orb_true_r.
Qed.

Lemma rebuilt_after (pre tr : trace) :
  rebuilt_then_published tr -> rebuilt_then_published (pre ++ tr)%list.
Proof.
  intros (p & kp & r & -> & Hr & Hc). exists (pre ++ p)%list, kp, r.
  repeat split; [now rewrite app_assoc | exact Hr | ].
  rewrite existsb_app, Hc. apply orb_true_r.
Qed.

Lemma rebuilt_cons (c : Entry) (tr : trace) :
  rebuilt_then_published tr -> rebuilt_then_published (c :: tr).
Proof. apply (rebuilt_after [c]). Qed.

Ltac but_last2 l :=
  lazymatch l with
  | [_; _] => constr:(@nil Entry)
  | ?a :: ?l' => let m := but_last2 l' in constr:(a :: m)
  end.

Ltac rebuilt :=
  lazymatch goal with
  | |- rebuilt_then_published (_ :: _ ++ _ :: ?t)%list =>
      is_var t; repeat first [apply rebuilt_cons | apply rebuilt_after]
  | |- rebuilt_then_published (_ :: _ ++ ?t)%list =>
      is_var t; repeat first [apply rebuilt_cons | apply rebuilt_after]
  | |- rebuilt_then_published (?c :: ?t ++ ?l)%list =>
      let m := but_last2 l in
      apply (ends_rebuilt (c :: t) m); [eauto | reflexivity]
  | |- rebuilt_then_published (?t ++ ?l)%list =>
      let m := but_last2 l in
      apply (ends_rebuilt t m); [eauto | reflexivity]
  | |- rebuilt_then_published ?l =>
      let m := but_last2 l in
      apply (ends_rebuilt [] m); [eauto | reflexivity]
  end.

Section Mutations.

Context {lib : Lib} {W : Type} (h : handler W).

Lemma create_rebuilds (x : Cmd) (args : list string) (w w' : W) tr :
  run h (createCmd x args) w = (Done None, w', tr) ->
  rebuilt_then_published tr.
Proof.
  intro H. unfold createCmd in H. go H; try discriminate H.
  all: injection H as -> <- <-; rebuilt.
Qed.

Lemma delete_rebuilds (x : Cmd) (args : list string) (w w' : W) tr :
  run h (deleteCmd x args) w = (Done None, w', tr) ->
  rebuilt_then_published tr.
Proof.
  intro H. unfold deleteCmd in H. go H; try discriminate H.
  all: injection H as -> <- <-; rebuilt.
Qed.

Lemma editNode_rebuilds (keg : option Local) (id : string) (w w' : W) tr :
  run h (editNode keg id) w = (Done None, w', tr) ->
  rebuilt_then_published tr.
Proof.
  intro H. unfold editNode in H. go H; try discriminate H.
  all: injection H as -> <- <-; rebuilt.
Qed.

Lemma edit_rebuilds (x : Cmd) (args : list string) (w w' : W) tr :
  run h (editCmd x args) w = (Done None, w', tr) ->
  args <> [] ->
  option_map on_terminal (hd_error tr) = Some true ->
  rebuilt_then_published tr.
Proof.
  intros H Hargs Htty. unfold editCmd in H.
  destruct args as [| id rest]; [contradiction | clear Hargs].
  go H; try discriminate H.
  all: injection H as -> <- <-; cbn in Htty; try discriminate Htty.
  all: repeat first [apply rebuilt_cons | apply rebuilt_after].
  all: eapply editNode_rebuilds; eassumption.
Qed.

End Mutations.

(** ** C1 *)

Section Changed.

Context {lib : Lib} {W : Type} (h : handler W).

Lemma title_keeps_store (x : Cmd) (args : list string) (w w' : W) o tr :
  run h (titleCmd x args) w = (o, w', tr) ->
  existsb changes_store tr = false.
Proof.
  intro H. unfold titleCmd in H.
  go H; injection H as <- <- <-; cbn [existsb]; rewrite ?existsb_app;
    repeat match goal with
           | |- context [existsb changes_store ?t] =>
               is_var t;
               let E := fresh "E" in
               assert (E : existsb changes_store t = false) by env_quiet;
               rewrite E; clear E
           end;
    reflexivity.
Qed.

Lemma edit_rebuilds_after_change (x : Cmd) (args : list string) (w w' : W) tr :
  run h (editCmd x args) w = (Done None, w', tr) ->
  existsb changes_store tr = true ->
  rebuilt_then_published tr.
Proof.
  intros H Hc. unfold editCmd in H.
  go H; try discriminate H.
  all: injection H as -> <- <-.
  all: try match goal with
           | Ht : run h (titleCmd _ _) _ = _ |- _ =>
               apply title_keeps_store in Ht; cbn in Hc; congruence
           end.
  all: try (cbn in Hc; discriminate Hc).
  all: repeat first [apply rebuilt_cons | apply rebuilt_after].
  all: eapply editNode_rebuilds; eassumption.
Qed.

End Changed.

(** C1: every [create] and every [delete] that succeeds, and every [edit]
    that succeeds after a call that changed the node tree, ends by
    rebuilding the index ([MakeDex] or [DexUpdate]) and then publishing,
    both without error and as its last two calls, after the call that
    changed the node tree; a successful [create] or [delete] always has
    such a call.  No successful run that changed the node tree is left
    without a rebuilt index. *)
Theorem mutation_rebuilds_then_publishes
  {lib : Lib} {W : Type} (h : handler W) (x : Cmd) (args : list string)
  (w w' : W) (tr : trace) :
  run h (createCmd x args) w = (Done None, w', tr) \/
  run h (deleteCmd x args) w = (Done None, w', tr) \/
  (run h (editCmd x args) w = (Done None, w', tr) /\
   existsb changes_store tr = true) ->
  rebuilt_then_published tr /\ existsb changes_store tr = true.
Proof.
  intro H.
  assert (Hr : rebuilt_then_published tr).
  { destruct H as [H | [H | [H Hc]]].
    - now apply create_rebuilds in H.
    - now apply delete_rebuilds in H.
    - now apply edit_rebuilds_after_change in H. }
  split; [exact Hr | ].
  destruct Hr as (pre & kp & r & -> & _ & Hc).
  rewrite existsb_app, Hc. reflexivity.
Qed.

Lemma mutation_rebuilds_then_publishes_witness :
  (rebuilt_then_published create_sample_trace /\
   existsb changes_store create_sample_trace = true) /\
  (rebuilt_then_published delete_9_trace /\
   existsb changes_store delete_9_trace = true) /\
  (rebuilt_then_published edit_3_trace /\
   existsb changes_store edit_3_trace = true).
Proof.
  split; [ | split].
  - apply (mutation_rebuilds_then_publishes
             (stub main_keg) (sub "create") ["sample"] tt tt).
    left. reflexivity.
  - apply (mutation_rebuilds_then_publishes
             (stub main_keg) (sub "delete") ["9"] tt tt).
    right; left. reflexivity.
  - apply (mutation_rebuilds_then_publishes
             (stub main_keg) (sub "edit") ["3"] tt tt).
    right; right. split; reflexivity.
Defined.

(** ** C4 *)

(** C4: [current] resolves the keg in a fixed order: the [KEG_CURRENT]
    environment variable mapped through the configuration, then the working
    directory when it holds a [keg] file, then the [current] var mapped
    through the configuration; when none resolves it returns the error
    and no [Local], and it returns a [Local] with no error otherwise. *)
Theorem current_precedence
  {lib : Lib} {W : Type} (h : handler W) (x : option Cmd) (w w' : W) o tr :
  run h (current x) w = (o, w', tr) ->
  exists res,
    o = Done res /\ resolves x tr res /\
    (fst res = None <-> snd res = Some (Errorf "no kegs found" [])) /\
    (fst res <> None <-> snd res = None).
Proof.
  intro H. apply current_resolves in H. destruct H as [res [-> R]].
  exists res. repeat split; trivial; destruct R; cbn; congruence.
Qed.

Lemma current_precedence_witness :
  run (stub main_keg) (current (Some root)) tt =
    (Done (Some (mkLocal "/k" "main"), None), tt, main_resolution) /\
  exists res,
    Done (Some (mkLocal "/k" "main"), None) = Done res /\
    resolves (Some root) main_resolution res /\
    (fst res = None <-> snd res = Some (Errorf "no kegs found" [])) /\
    (fst res <> None <-> snd res = None).
Proof.
  split; [reflexivity | ].
  apply (current_precedence (stub main_keg) (Some root) tt tt). reflexivity.
Defined.

(** ** C3 *)

(** Rewrites [existsb Q] over the calls of [current] to [false] in [Hf]. *)
Ltac scan Hf :=
  cbn [existsb] in Hf;
  repeat rewrite existsb_app in Hf;
  repeat match type of Hf with
         | context [existsb ?Q ?t] =>
             is_var t;
             let E := fresh "E" in
             assert (E : existsb Q t = false) by env_quiet;
             rewrite E in Hf; clear E
         end;
  cbn in Hf.

Ltac scan_goal :=
  cbn [existsb];
  repeat rewrite existsb_app;
  repeat match goal with
         | |- context [existsb ?Q ?t] =>
             is_var t;
             let E := fresh "E" in
             assert (E : existsb Q t = false) by env_quiet;
             rewrite E; clear E
         end;
  cbn.

(** Splits the trace of the goal [tr = pre ++ [a; b]] before its last two
    calls. *)
Ltac last_two :=
  lazymatch goal with
  | |- (?c :: ?t ++ ?l)%list = (?pre ++ _)%list =>
      let m := but_last2 l in unify pre (c :: t ++ m)%list
  | |- (?t ++ ?l)%list = (?pre ++ _)%list =>
      let m := but_last2 l in unify pre (t ++ m)%list
  end;
  cbn [app]; rewrite <- ?app_assoc; reflexivity.

Section Latest.

Context {lib : Lib} {W : Type} (h : handler W).

(** C3: when [ParseDex] answers with an error in [latest], the command
    returns nil and has written nothing to standard output; the text it
    parsed is the lines that [file.Head] read from [dex/latest.md], joined
    by newlines, and the failed parse is its last call. *)
Theorem latest_parse_error_is_silent
  (x : Cmd) (args : list string) (w w' : W) o tr :
  run h (latestCmd x args) w = (o, w', tr) ->
  existsb parse_failed tr = true ->
  o = Done None /\ existsb is_output tr = false /\
  exists pre keg n lines d e,
    tr = (pre ++ [Did (FileHead (Join [Path keg; "dex/latest.md"]) n) (lines, None);
                  Did (ParseDex (strings_Join lines newline)) (d, Some e)])%list.
Proof.
  intros H Hf. unfold latestCmd, latestCount in H.
  go H; injection H as <- <- <-; scan Hf; try discriminate Hf.
  all: split; [reflexivity | split; [scan_goal; reflexivity | ]].
  all: do 6 eexists; last_two.
Qed.

Lemma latestCount_asks (x : Cmd) (args : list string) (w w1 : W) o t1 :
  run h (latestCount x args) w = (o, w1, t1) ->
  existsb is_parse t1 = false /\ existsb is_output t1 = false.
Proof.
  intro H. unfold latestCount in H. go H; injection H as <- <- <-; now split.
Qed.

(** C6: once the count is settled and the keg resolved, [latest] on a keg
    without [dex/latest.md] returns the error that the file does not
    exist; the check of the file is its last call, and no call reads or
    parses the index or writes to standard output. *)
Theorem latest_without_index
  (x : Cmd) (args : list string) (w w1 w2 : W) (n : Z) (keg : Local) t1 t2 :
  run h (latestCount x args) w = (Done (n, None), w1, t1) ->
  run h (current (Caller x)) w1 = (Done (Some keg, None), w2, t2) ->
  fst (h _ (Exists (Join [Path keg; "dex/latest.md"])) w2) = false ->
  exists w' tr,
    run h (latestCmd x args) w =
      (Done (Some (Errorf "dex/latest.md file does not exist" [])), w', tr) /\
    tr = (t1 ++ t2 ++ [Did (Exists (Join [Path keg; "dex/latest.md"])) false])%list /\
    existsb is_parse tr = false /\ existsb is_output tr = false.
Proof.
  intros Hn Hk Hx.
  destruct (latestCount_asks _ _ _ _ _ _ Hn) as [Hp1 Ho1].
  destruct (current_cases h _ _ _ _ _ Hk) as [Hq _].
  unfold latestCmd. rewrite run_bind, Hn. cbn [fst snd].
  rewrite run_bind, Hk. unfold deref, call; cbn [run bind].
  destruct (h _ (Exists (Join [Path keg; "dex/latest.md"])) w2) as [found w3].
  cbn in Hx; subst found; cbn.
  do 2 eexists. split; [reflexivity | split; [reflexivity | ]].
  rewrite !existsb_app, Hp1, Ho1.
  split; scan_goal; reflexivity.
Qed.

End Latest.

(** ** C5 *)

Section Edit.

Context {lib : Lib} {W : Type} (h : handler W).

Lemma removed_after (pre tr : trace) o :
  existsb rebuilds pre = false ->
  empty_node_removed o tr -> empty_node_removed o (pre ++ tr)%list.
Proof.
  intros Hpre (p & keg & id & rerr & post & -> & Hp & Hr).
  exists (pre ++ p)%list, keg, id, rerr, post. repeat split.
  - now rewrite app_assoc.
  - now rewrite existsb_app, Hpre, Hp.
  - exact Hr.
Qed.

Lemma removed_cons (c : Entry) (tr : trace) o :
  rebuilds c = false ->
  empty_node_removed o tr -> empty_node_removed o (c :: tr).
Proof.
  intros Hc. apply (removed_after [c]). cbn. now rewrite Hc.
Qed.

Lemma editNode_removes (keg : option Local) (id : string) (w w' : W) o tr :
  run h (editNode keg id) w = (o, w', tr) ->
  existsb found_empty tr = true ->
  empty_node_removed o tr.
Proof.
  intros H Hf. unfold editNode in H.
  go H; injection H as <- <- <-; cbn in Hf; try discriminate Hf.
  all: match goal with
       | |- empty_node_removed _ (?c :: ?a :: _) => exists [c; a]
       end; do 4 eexists; cbn; repeat split; try (eexists; reflexivity).
Qed.

Lemma checked_after (pre tr : trace) :
  emptiness_checked tr -> emptiness_checked (pre ++ tr)%list.
Proof.
  intros (p & path & found & post & ->).
  exists (pre ++ p)%list, path, found, post. now rewrite app_assoc.
Qed.

Lemma checked_cons (c : Entry) (tr : trace) :
  emptiness_checked tr -> emptiness_checked (c :: tr).
Proof. apply (checked_after [c]). Qed.

Lemma editNode_checks (keg : option Local) (id : string) (w w' : W) o tr :
  run h (editNode keg id) w = (o, w', tr) ->
  existsb edited tr = true ->
  emptiness_checked tr.
Proof.
  intros H Hf. unfold editNode in H.
  go H; injection H as <- <- <-; cbn in Hf; try discriminate Hf.
  all: match goal with
       | |- emptiness_checked (?c :: _) => exists [c]
       end; do 3 eexists; reflexivity.
Qed.

Lemma title_never_edits (x : Cmd) (args : list string) (w w' : W) o tr :
  run h (titleCmd x args) w = (o, w', tr) ->
  existsb found_empty tr = false /\ existsb edited tr = false.
Proof.
  intro H. unfold titleCmd in H.
  go H; injection H as <- <- <-; split; scan_goal; reflexivity.
Qed.

Lemma edit_removes (x : Cmd) (args : list string) (w w' : W) o tr :
  run h (editCmd x args) w = (o, w', tr) ->
  existsb found_empty tr = true ->
  empty_node_removed o tr.
Proof.
  intros H Hf. unfold editCmd in H.
  go H; injection H as <- <- <-; scan Hf; try discriminate Hf.
  all: try match goal with
           | Ht : run h (titleCmd _ _) _ = _ |- _ =>
               apply title_never_edits in Ht; destruct Ht as [Ht _]; congruence
           end.
  all: repeat first [ apply removed_cons; [reflexivity | ]
                    | apply removed_after; [env_quiet | ] ].
  all: eapply editNode_removes; eassumption.
Qed.

Lemma edit_checks (x : Cmd) (args : list string) (w w' : W) o tr :
  run h (editCmd x args) w = (o, w', tr) ->
  existsb edited tr = true ->
  emptiness_checked tr.
Proof.
  intros H Hf. unfold editCmd in H.
  go H; injection H as <- <- <-; scan Hf; try discriminate Hf.
  all: try match goal with
           | Ht : run h (titleCmd _ _) _ = _ |- _ =>
               apply title_never_edits in Ht; destruct Ht as [_ Ht]; congruence
           end.
  all: repeat first [apply checked_cons | apply checked_after].
  all: eapply editNode_checks; eassumption.
Qed.

(** C5: in every run of [edit], once the editor has come back the next
    call asks whether the document is empty; whenever it is, the directory
    of the node is removed at once, before any rebuild of the index, and
    the index is rebuilt only after the removal has succeeded. *)
Theorem edit_removes_empty_node
  (x : Cmd) (args : list string) (w w' : W) o tr :
  run h (editCmd x args) w = (o, w', tr) ->
  (existsb edited tr = true -> emptiness_checked tr) /\
  (existsb found_empty tr = true -> empty_node_removed o tr).
Proof.
  intro H. split.
  - now apply (edit_checks x args w w' o).
  - now apply (edit_removes x args w w').
Qed.

End Edit.

(** ** C9 *)

Ltac but_last3 l :=
  lazymatch l with
  | [_; _; _] => constr:(@nil Entry)
  | ?a :: ?l' => let m := but_last3 l' in constr:(a :: m)
  end.

Ltac last_three :=
  try match goal with
      | |- ?lhs = (_ ++ [_; Did IsInteractive ?tty; _])%list =>
          match lhs with
          | context [Did IsInteractive ?b] => unify tty b
          end
      end;
  lazymatch goal with
  | |- (?c :: ?t ++ ?l)%list = (?pre ++ _)%list =>
      let m := but_last3 l in unify pre (c :: t ++ m)%list
  | |- (?t ++ ?l)%list = (?pre ++ _)%list =>
      let m := but_last3 l in unify pre (t ++ m)%list
  end;
  cbn [app]; rewrite <- ?app_assoc; reflexivity.

Lemma filter_all (A : Type) (f : A -> bool) (l : list A) :
  (forall a, f a = true) -> filter f l = l.
Proof.
  intro Hf. induction l as [| a l IH]; cbn; [reflexivity | ].
  now rewrite Hf, IH.
Qed.

Lemma contains_empty (s : string) : contains s "" = true.
Proof. destruct s; reflexivity. Qed.

(** Spec section 8, filter correctness: the empty text keeps every entry,
    in order. *)
Lemma WithTitleText_spec_empty (d : Dex) : WithTitleText_spec d "" = d.
Proof.
  unfold WithTitleText_spec. apply filter_all. intro e. apply contains_empty.
Qed.

Section Rendering.

Context {lib : Lib} {W : Type} (h : handler W).

Lemma titles_render (x : Cmd) (args : list string) (w w' : W) o tr :
  run h (titleCmd x args) w = (o, w', tr) ->
  existsb loaded tr = true ->
  titles_show args o tr.
Proof.
  intros H Hl. unfold titleCmd in H. unfold titles_show, title_key.
  destruct args as [| a rest]; cbn [length Nat.eqb app] in H |- *.
  all: go H; injection H as <- <- <-; scan Hl; try discriminate Hl.
  all: do 4 eexists; (split; [last_three | ]);
    (split; [scan_goal; reflexivity | reflexivity]).
Qed.

Lemma latest_renders (x : Cmd) (args : list string) (w w' : W) o tr :
  run h (latestCmd x args) w = (o, w', tr) ->
  existsb loaded tr = true ->
  latest_shows o tr.
Proof.
  intros H Hl. unfold latestCmd, latestCount in H. unfold latest_shows.
  go H; injection H as <- <- <-; scan Hl; try discriminate Hl.
  all: do 4 eexists; (split; [last_three | ]);
    (split; [scan_goal; reflexivity | reflexivity]).
Qed.

End Rendering.

(** C9: once the index is loaded, [titles] and [latest] end by showing one
    and the same Dex, with [Pretty] when standard output is interactive and
    with [AsIncludes] when it is not: [titles] the loaded Dex filtered by
    its key, [latest] the parsed Dex.  Without arguments the key of
    [titles] is the empty string, and the filter of the spec then keeps
    every entry in order. *)
Theorem same_dex_in_both_renderings
  {lib : Lib} {W : Type} (h : handler W) (x : Cmd) (args : list string)
  (w w' : W) o tr :
  existsb loaded tr = true ->
  (run h (titleCmd x args) w = (o, w', tr) -> titles_show args o tr) /\
  (run h (latestCmd x args) w = (o, w', tr) -> latest_shows o tr) /\
  title_key [] = "" /\
  (forall d tty,
     rendering (lib := spec_lib) true tty
       (WithTitleText (Lib := spec_lib) d (title_key [])) =
     rendering (lib := spec_lib) true tty d).
Proof.
  intro Hl. repeat split.
  - intro H. now apply (titles_render h x args w w').
  - intro H. now apply (latest_renders h x args w w').
  - intros d tty.
    assert (E : WithTitleText (Lib := spec_lib) d (title_key []) = d).
    { destruct d as [l |]; cbn; [ | reflexivity].
      now rewrite WithTitleText_spec_empty. }
    now rewrite E.
Qed.

Lemma same_dex_in_both_renderings_witness :
  (existsb loaded titles_trace = true /\ titles_show [] (Done None) titles_trace) /\
  (existsb loaded latest_2_trace = true /\ latest_shows (Done None) latest_2_trace).
Proof.
  split; (split; [reflexivity | ]).
  - apply (same_dex_in_both_renderings
             (stub (piped main_keg)) (sub "titles") [] tt tt (Done None) titles_trace);
      reflexivity.
  - apply (same_dex_in_both_renderings
             (stub main_keg) (sub "latest") ["2"] tt tt (Done None) latest_2_trace);
      reflexivity.
Defined.

(** ** C10 *)

Section Delete.

Context {lib : Lib} {W : Type} (h : handler W).

Lemma run_frame (A : Type) (p : Prog A) (w w' : W) o tr :
  frame h ->
  run h p w = (o, w', tr) ->
  existsb mutates tr = false ->
  w' = w.
Proof.
  intro Hfr. revert w w' o tr.
  induction p as [a | why | X e k IH]; intros w w' o tr H Hm; cbn in H.
  - now injection H as <- <- <-.
  - now injection H as <- <- <-.
  - specialize (Hfr X e w).
    destruct (h X e w) as [r w1].
    destruct (run h (k r) w1) as [[o1 w2] t] eqn:Hk.
    injection H as <- <- <-. cbn [existsb] in Hm.
    apply orb_false_iff in Hm. destruct Hm as [Hc Ht].
    cbn [fst snd] in Hfr. rewrite <- (Hfr Hc).
    now apply (IH r w1 w2 o1 t).
Qed.

Lemma delete_bad_id (x : Cmd) (id : string) (rest : list string) (w w' : W) o tr :
  run h (deleteCmd x (id :: rest)) w = (o, w', tr) ->
  snd (Atoi id) <> None ->
  (id = "last" -> existsb last_found tr = false) ->
  existsb mutates tr = false /\
  exists tc post res,
    tr = (tc ++ post)%list /\ resolves (Caller x) tc res /\
    match res with
    | (Some _, _) => o = Done (Some (UsageError x))
    | (None, err) => o = Done err /\ post = []
    end.
Proof.
  intros H Hid Hlast. unfold deleteCmd in H.
  go H; injection H as <- <- <-.
  all: try (exfalso; congruence).
  all: try match goal with
           | E : String.eqb _ "last" = true |- _ =>
               apply String.eqb_eq in E; specialize (Hlast E);
               scan Hlast; discriminate Hlast
           end.
  all: (split; [scan_goal; reflexivity | ]).
  all: match goal with
       | Hr : resolves _ ?t ?res |- exists tc post res', (?t ++ ?l)%list = _ /\ _ =>
           exists t, l, res; repeat split; assumption
       | Hr : resolves _ ?t ?res |- exists tc post res', ?t = _ /\ _ =>
           exists t, [], res; repeat split;
           [symmetry; apply app_nil_r | assumption]
       end.
Qed.

End Delete.

(** C10, as stated, fails: with no keg to resolve, [delete] with an
    argument that is no integer returns the error of [current], which is
    not a usage error. *)
Lemma delete_without_keg_is_no_usage_error :
  snd (Atoi "abc") <> None /\ "abc" <> "last" /\
  exists tr,
    run (stub nowhere) (deleteCmd (sub "delete") ["abc"]) tt =
      (Done (Some (Errorf "no kegs found" [])), tt, tr) /\
    Errorf "no kegs found" [] <> UsageError (sub "delete").
Proof.
  repeat split; try discriminate.
  eexists. split; [reflexivity | discriminate].
Qed.

(** C10, amended: [delete] with an argument that is no decimal integer,
    and that is not [last] answered with a node, makes no call that changes
    the node tree, the index or the published state; it returns the usage
    error when the keg resolves, and the error of [current] when it does
    not.  With collaborators whose other calls leave their world alone, the
    world is unchanged. *)
Theorem delete_rejects_bad_id
  {lib : Lib} {W : Type} (h : handler W)
  (x : Cmd) (id : string) (rest : list string) (w w' : W) o tr :
  run h (deleteCmd x (id :: rest)) w = (o, w', tr) ->
  snd (Atoi id) <> None ->
  (id = "last" -> existsb last_found tr = false) ->
  existsb mutates tr = false /\
  (exists tc post res,
     tr = (tc ++ post)%list /\ resolves (Caller x) tc res /\
     match res with
     | (Some _, _) => o = Done (Some (UsageError x))
     | (None, err) => o = Done err /\ post = []
     end) /\
  (frame h -> w' = w).
Proof.
  intros H Hid Hlast.
  destruct (delete_bad_id h x id rest w w' _ _ H Hid Hlast) as [Hm Hres].
  repeat split; trivial.
  intro Hfr. exact (run_frame h _ _ _ _ _ _ Hfr H Hm).
Qed.

Lemma delete_rejects_bad_id_witness :
  run (stub main_keg) (deleteCmd (sub "delete") ["abc"]) tt =
    (Done (Some (UsageError (sub "delete"))), tt, delete_abc_trace) /\
  existsb mutates delete_abc_trace = false /\
  (exists tc post res,
     delete_abc_trace = (tc ++ post)%list /\ resolves (Caller (sub "delete")) tc res /\
     match res with
     | (Some _, _) =>
         Done (Some (UsageError (sub "delete"))) = Done (Some (UsageError (sub "delete")))
     | (None, err) => Done (Some (UsageError (sub "delete"))) = Done err /\ post = []
     end) /\
  (frame (stub main_keg) -> tt = tt).
Proof.
  split; [reflexivity | ].
  apply (delete_rejects_bad_id (stub main_keg) (sub "delete") "abc" [] tt tt).
  - reflexivity.
  - discriminate.
  - discriminate.
Defined.

(** ** C2, C7, C8: the index that cannot be read, the empty index, the
    title that matches no node *)

Section Queries.

Context {lib : Lib} {W : Type} (h : handler W).

(** Whatever [ReadDex] answers in [random], error or not, the next call is
    [Random] on the index it gave. *)
Lemma random_ignores_ReadDex_error (x : Cmd) (args : list string) (w w' : W) o tr :
  run h (randomCmd x args) w = (o, w', tr) ->
  (forallb asks_env tr = true /\ o = Done (Some (Errorf "no kegs found" []))) \/
  exists tc kp d err r post,
    tr = (tc ++ Did (ReadDex kp) (d, err) :: Did (Random d) r :: post)%list.
Proof.
  intro H. unfold randomCmd in H.
  go H; injection H as <- <- <-; try (left; now split).
  all: right; do 6 eexists; reflexivity.
Qed.

(** Whatever [ReadDex] answers in [dir] with an argument, error or not, the
    next call is [ChooseWithTitleText] on the index it gave. *)
Lemma dir_ignores_ReadDex_error (x : Cmd) (a : string) (rest : list string)
  (w w' : W) o tr :
  run h (dirCmd x (a :: rest)) w = (o, w', tr) ->
  (forallb asks_env tr = true /\ o = Done (Some (Errorf "no kegs found" []))) \/
  exists tc kp d err key r post,
    tr = (tc ++ Did (ReadDex kp) (d, err)
             :: Did (ChooseWithTitleText d key) r :: post)%list.
Proof.
  intro H. unfold dirCmd in H.
  go H; injection H as <- <- <-; try (left; now split).
  all: right; do 7 eexists; reflexivity.
Qed.

(** [dir] panics when the choice is nil. *)
Lemma dir_no_choice_crashes (x : Cmd) (args : list string) (w w' : W) o tr :
  run h (dirCmd x args) w = (o, w', tr) ->
  existsb no_choice tr = true ->
  o = Crashed nil_deref.
Proof.
  intros H Hn. unfold dirCmd in H.
  go H; injection H as <- <- <-; scan Hn; try discriminate Hn; reflexivity.
Qed.

Lemma title_no_random (x : Cmd) (args : list string) (w w' : W) o tr :
  run h (titleCmd x args) w = (o, w', tr) ->
  existsb random_nil tr = false /\ existsb no_choice tr = false.
Proof.
  intro H. unfold titleCmd in H.
  go H; injection H as <- <- <-; split; scan_goal; reflexivity.
Qed.

Lemma editNode_no_random (keg : option Local) (id : string) (w w' : W) o tr :
  run h (editNode keg id) w = (o, w', tr) ->
  existsb random_nil tr = false /\ existsb no_choice tr = false.
Proof.
  intro H. unfold editNode in H.
  go H; injection H as <- <- <-; split; reflexivity.
Qed.

Lemma edit_no_random (x : Cmd) (args : list string) (w w' : W) o tr :
  run h (editCmd x args) w = (o, w', tr) ->
  existsb random_nil tr = false.
Proof.
  intro H. unfold editCmd in H.
  go H; injection H as <- <- <-; scan_goal;
    repeat match goal with
           | Ht : run h (titleCmd _ _) _ = _ |- _ =>
               apply title_no_random in Ht; destruct Ht as [-> _]
           | Ht : run h (editNode _ _) _ = _ |- _ =>
               apply editNode_no_random in Ht; destruct Ht as [-> _]
           end;
    reflexivity.
Qed.

(** [edit] reports an error when the choice is nil. *)
Lemma edit_no_choice_is_error (x : Cmd) (args : list string) (w w' : W) o tr :
  run h (editCmd x args) w = (o, w', tr) ->
  existsb no_choice tr = true ->
  o = Done (Some (Errorf "unable to choose a title" [])).
Proof.
  intros H Hn. unfold editCmd in H.
  go H; injection H as <- <- <-; scan Hn;
    repeat match goal with
           | Ht : run h (titleCmd _ _) _ = _ |- _ =>
               apply title_no_random in Ht; destruct Ht as [_ Ht];
               rewrite Ht in Hn
           | Ht : run h (editNode _ _) _ = _ |- _ =>
               apply editNode_no_random in Ht; destruct Ht as [_ Ht];
               rewrite Ht in Hn
           end;
    try discriminate Hn; reflexivity.
Qed.

(** [random] panics in every mode when [Random] gives no node. *)
Lemma random_nil_crashes (x : Cmd) (args : list string) (w w' : W) o tr :
  In args random_modes ->
  run h (randomCmd x args) w = (o, w', tr) ->
  existsb random_nil tr = true ->
  o = Crashed nil_deref.
Proof.
  intros Hmode H Hn. unfold randomCmd, index0 in H.
  cbn in Hmode.
  repeat (destruct Hmode as [<- | Hmode]); [ .. | contradiction ].
  all: cbn [length Nat.eqb app String.eqb Ascii.eqb Bool.eqb] in H.
  all: go H; injection H as <- <- <-; scan Hn;
    try match goal with
        | Ht : run h (editCmd _ _) _ = _ |- _ =>
            apply edit_no_random in Ht; rewrite Ht in Hn
        end;
    try discriminate Hn; reflexivity.
Qed.

End Queries.

(** Spec section 8, random on empty: [Random] on an empty Dex gives no
    node, whatever the source of randomness. *)
Lemma Random_spec_empty (pick : nat) : Random_spec pick [] = None.
Proof. reflexivity. Qed.

(** C2: with an index that cannot be read, [titles] returns the error of
    [ReadDex]; [random] and [dir] do not: they go on with the nil index,
    to [Random] and to [ChooseWithTitleText], and panic on the nil node
    that comes back. *)
Theorem ReadDex_error_is_not_returned :
  run (stub unreadable) (titleCmd (sub "titles") []) tt =
    (Done no_index, tt,
     (main_resolution ++ [Did (ReadDex "/k") (None, no_index)])%list) /\
  run (stub unreadable) (randomCmd (sub "random") ["id"]) tt =
    (Crashed nil_deref, tt,
     (main_resolution ++
      [Did (ReadDex "/k") (None, no_index); Did (Random None) None])%list) /\
  run (stub unreadable) (dirCmd (sub "dir") ["alpha"]) tt =
    (Crashed nil_deref, tt,
     (main_resolution ++
      [Did (ReadDex "/k") (None, no_index);
       Did (ChooseWithTitleText None "alpha") None])%list).
Proof. repeat split. Qed.

(** C7: [Random] of the spec gives no node on an empty Dex; [random] then
    panics on the nil node in every mode, on an empty index as on one that
    cannot be read. *)
Theorem random_on_empty_index_crashes :
  (forall pick, Random_spec pick [] = None) /\
  Forall (fun args =>
            fst (fst (run (stub blank) (randomCmd (sub "random") args) tt)) =
            Crashed nil_deref) random_modes /\
  Forall (fun args =>
            fst (fst (run (stub unreadable) (randomCmd (sub "random") args) tt)) =
            Crashed nil_deref) random_modes.
Proof.
  split; [exact Random_spec_empty | ].
  split; repeat constructor.
Qed.

(** C8: no title of the index contains [zzz], so the choice is nil: [edit]
    returns an error, [dir] panics on the nil node. *)
Theorem nil_choice_crashes_dir :
  ChooseWithTitleText_spec None [alpha; gamma; beta] "zzz" = None /\
  run (stub main_keg) (editCmd (sub "edit") ["zzz"]) tt =
    (Done (Some (Errorf "unable to choose a title" [])), tt,
     (Did IsInteractive true :: main_resolution ++
      [Did (ReadDex "/k") (Some [alpha; gamma; beta], None);
       Did (ChooseWithTitleText (Some [alpha; gamma; beta]) "zzz") None])%list) /\
  run (stub main_keg) (dirCmd (sub "dir") ["zzz"]) tt =
    (Crashed nil_deref, tt,
     (main_resolution ++
      [Did (ReadDex "/k") (Some [alpha; gamma; beta], None);
       Did (ChooseWithTitleText (Some [alpha; gamma; beta]) "zzz") None])%list).
Proof. repeat split. Qed.

(** ** Runs of the theorems above *)

Lemma latest_parse_error_is_silent_witness :
  run (stub broken) (latestCmd (sub "latest") ["2"]) tt =
    (Done None, tt, broken_latest_trace) /\
  existsb parse_failed broken_latest_trace = true /\
  Done None = Done None (A := option error) /\
  existsb is_output broken_latest_trace = false /\
  exists pre keg n lines d e,
    broken_latest_trace =
    (pre ++ [Did (FileHead (Join [Path keg; "dex/latest.md"]) n) (lines, None);
             Did (ParseDex (strings_Join lines newline)) (d, Some e)])%list.
Proof.
  split; [reflexivity | split; [reflexivity | ]].
  apply (latest_parse_error_is_silent (stub broken) (sub "latest") ["2"] tt tt);
    reflexivity.
Defined.

Lemma edit_removes_empty_node_witness :
  run (stub emptied) (editCmd (sub "edit") ["3"]) tt =
    (Done None, tt, emptied_edit_trace) /\
  (existsb edited emptied_edit_trace = true /\ emptiness_checked emptied_edit_trace) /\
  (existsb found_empty emptied_edit_trace = true /\
   empty_node_removed (Done None) emptied_edit_trace).
Proof.
  assert (Hrun : run (stub emptied) (editCmd (sub "edit") ["3"]) tt =
                 (Done None, tt, emptied_edit_trace)) by reflexivity.
  split; [exact Hrun | ].
  destruct (edit_removes_empty_node (stub emptied) (sub "edit") ["3"] tt tt
              (Done None) emptied_edit_trace Hrun) as [Hchecked Hremoved].
  split; (split; [reflexivity | ]).
  - apply Hchecked. reflexivity.
  - apply Hremoved. reflexivity.
Defined.

Lemma latest_without_index_witness :
  run (stub no_latest) (latestCount (sub "latest") ["2"]) tt = (Done (2, None), tt, []) /\
  run (stub no_latest) (current (Some root)) tt =
    (Done (Some (mkLocal "/k" "main"), None), tt, main_resolution) /\
  fst (stub no_latest _ (Exists (Join [Path (mkLocal "/k" "main"); "dex/latest.md"])) tt)
    = false /\
  exists w' tr,
    run (stub no_latest) (latestCmd (sub "latest") ["2"]) tt =
      (Done (Some (Errorf "dex/latest.md file does not exist" [])), w', tr) /\
    tr = ([] ++ main_resolution ++
          [Did (Exists (Join [Path (mkLocal "/k" "main"); "dex/latest.md"])) false])%list /\
    existsb is_parse tr = false /\ existsb is_output tr = false.
Proof.
  split; [reflexivity | split; [reflexivity | split; [reflexivity | ]]].
  apply (latest_without_index (stub no_latest) (sub "latest") ["2"] tt tt tt 2
           (mkLocal "/k" "main") [] main_resolution); reflexivity.
Defined.

(** ** Beyond the claims: how every command begins, what the read-only
    commands do *)

(** No call of a run of [current] is of kind [Q], for any class [Q] of
    calls that [current] never makes. *)
Ltac env_free :=
  match goal with
  | Hq : forallb asks_env ?t = true |- existsb ?Q ?t = false =>
      apply (forallb_existsb asks_env Q t Hq);
      let X := fresh "X" in let e := fresh "e" in
      let r := fresh "r" in let Hc := fresh "Hc" in
      intros [X e r]; destruct e; cbn; intro Hc;
      first [discriminate Hc | reflexivity]
  end.

Ltac sweep Hf :=
  cbn [existsb] in Hf;
  repeat rewrite existsb_app in Hf;
  repeat match type of Hf with
         | context [existsb ?Q ?t] =>
             is_var t;
             let E := fresh "E" in
             assert (E : existsb Q t = false) by env_free;
             rewrite E in Hf; clear E
         end;
  cbn in Hf.

Ltac sweep_goal :=
  cbn [existsb];
  repeat rewrite existsb_app;
  repeat match goal with
         | |- context [existsb ?Q ?t] =>
             is_var t;
             let E := fresh "E" in
             assert (E : existsb Q t = false) by env_free;
             rewrite E; clear E
         end;
  cbn.

(** Gives the resolution of the run as the witness of the goal. *)
Ltac by_resolution :=
  match goal with
  | Hr : resolves _ ?t ?res |- exists tc post res', (?t ++ ?l)%list = _ /\ _ =>
      exists t, l, res
  | Hr : resolves _ ?t ?res |- exists tc post res', ?t = _ /\ _ =>
      exists t, [], res; rewrite app_nil_r
  | Hr : resolves _ ?t ?res |- exists tc res', resolves _ tc res' /\ _ =>
      exists t, res
  end.

Section Beginning.

Context {lib : Lib} {W : Type} (h : handler W).

(** X1: [current], [titles], [dir], [delete], [create] and [random] resolve
    the keg against their caller before any other call; when no keg
    resolves they make no other call and return the error of [current]. *)
Theorem commands_begin_with_keg
  (x : Cmd) (args : list string) (w w' : W) o tr :
  run h (currentCmd x args) w = (o, w', tr) \/
  run h (titleCmd x args) w = (o, w', tr) \/
  run h (dirCmd x args) w = (o, w', tr) \/
  run h (deleteCmd x args) w = (o, w', tr) \/
  run h (createCmd x args) w = (o, w', tr) \/
  run h (randomCmd x args) w = (o, w', tr) ->
  begins_with_keg x o tr.
Proof.
  unfold begins_with_keg.
  intros [H | [H | [H | [H | [H | H]]]]];
    [ unfold currentCmd in H | unfold titleCmd in H | unfold dirCmd in H
    | unfold deleteCmd in H | unfold createCmd in H | unfold randomCmd in H ].
  all: go H; injection H as <- <- <-; by_resolution.
  all: (split; [reflexivity | split; [assumption | ]]).
  all: cbn; intro Hnone; first [discriminate Hnone | now split].
Qed.

(** X2: [titles], [latest], [dir] and [current] make no call that changes
    the node tree, the index or the published state; with collaborators
    whose other calls leave their world alone, the world is unchanged. *)
Theorem queries_never_mutate
  (x : Cmd) (args : list string) (w w' : W) o tr :
  run h (titleCmd x args) w = (o, w', tr) \/
  run h (latestCmd x args) w = (o, w', tr) \/
  run h (dirCmd x args) w = (o, w', tr) \/
  run h (currentCmd x args) w = (o, w', tr) ->
  existsb mutates tr = false /\ (frame h -> w' = w).
Proof.
  intro H.
  assert (Hm : existsb mutates tr = false).
  { destruct H as [H | [H | [H | H]]];
      [ unfold titleCmd in H | unfold latestCmd, latestCount in H
      | unfold dirCmd in H | unfold currentCmd in H ].
    all: go H; injection H as <- <- <-; sweep_goal; reflexivity. }
  split; [exact Hm | ].
  intro Hfr.
  destruct H as [H | [H | [H | H]]]; exact (run_frame h _ _ _ _ _ _ Hfr H Hm).
Qed.

(** X3: [current] prints one line, the name of the keg that [current]
    resolves (whatever its arguments), and returns nil; when no keg
    resolves it prints nothing and returns the error. *)
Theorem current_prints_the_name
  (x : Cmd) (args : list string) (w w' : W) o tr :
  run h (currentCmd x args) w = (o, w', tr) ->
  prints_keg_name x o tr.
Proof.
  intro H. unfold currentCmd in H. unfold prints_keg_name.
  go H; injection H as <- <- <-; by_resolution; (split; [assumption | ]);
    cbn; now split.
Qed.

(** X4: [dir] without argument prints the path of the keg and does not
    read the index; with arguments it reads the index, asks for the node
    whose title holds the arguments joined by spaces and prints the
    directory of that node under the keg, and panics when no node is
    chosen. *)
Theorem dir_prints_the_directory
  (x : Cmd) (args : list string) (w w' : W) o tr :
  run h (dirCmd x args) w = (o, w', tr) ->
  prints_dir x args o tr.
Proof.
  intro H. unfold dirCmd in H. unfold prints_dir.
  destruct args as [| a rest]; cbn [length Nat.ltb Nat.leb] in H.
  all: go H; injection H as <- <- <-; by_resolution; (split; [assumption | ]);
    cbn [fst snd]; try (now split).
  all: match goal with
       | |- context [Did (ReadDex _) (?d0, ?e0)
                       :: Did (ChooseWithTitleText _ _) ?c0 :: _] =>
           exists d0, e0, c0
       end; split; reflexivity.
Qed.

(** X5: [dex update] panics when its command has no caller; otherwise it
    resolves the keg against the caller of its caller, calls [MakeDex] on
    the keg and returns its answer; it never publishes. *)
Theorem dex_update_rebuilds_only
  (x : Cmd) (args : list string) (w w' : W) o tr :
  run h (dexUpdateCmd x args) w = (o, w', tr) ->
  updates_dex x o tr /\ existsb publishes tr = false /\
  existsb changes_store tr = false.
Proof.
  intro H. unfold dexUpdateCmd in H. unfold updates_dex.
  destruct (Caller x) as [c |]; cbn [deref] in H.
  - go H; injection H as <- <- <-;
      (split; [ | split; sweep_goal; reflexivity]);
      by_resolution; (split; [assumption | ]); cbn; try (now split).
    all: eexists; split; reflexivity.
  - cbn in H. injection H as <- <- <-. repeat split.
Qed.

(** X6: [delete] without argument resolves the keg first; without a keg it
    returns the error of [current], with a keg it panics on [args[0]]; in
    both cases it makes no call that changes anything. *)
Theorem delete_without_argument_panics
  (x : Cmd) (w w' : W) o tr :
  run h (deleteCmd x []) w = (o, w', tr) ->
  existsb mutates tr = false /\
  exists res,
    resolves (Caller x) tr res /\
    o = match res with
        | (Some _, _) => Crashed index_panic
        | (None, e) => Done e
        end.
Proof.
  intro H. unfold deleteCmd in H.
  go H; injection H as <- <- <-; (split; [sweep_goal; reflexivity | ]);
    eexists; (split; [eassumption | reflexivity]).
Qed.

End Beginning.

Lemma commands_begin_with_keg_witness :
  run (stub main_keg) (titleCmd (sub "titles") ["a"; "b"]) tt =
    (Done None, tt, titles_ab_trace) /\
  begins_with_keg (sub "titles") (Done None) titles_ab_trace.
Proof.
  assert (Hrun : run (stub main_keg) (titleCmd (sub "titles") ["a"; "b"]) tt =
                 (Done None, tt, titles_ab_trace)) by reflexivity.
  split; [exact Hrun | ].
  apply (commands_begin_with_keg (stub main_keg) (sub "titles") ["a"; "b"] tt tt).
  right; left. exact Hrun.
Defined.

Lemma queries_never_mutate_witness :
  run (stub main_keg) (titleCmd (sub "titles") ["a"; "b"]) tt =
    (Done None, tt, titles_ab_trace) /\
  existsb mutates titles_ab_trace = false /\ (frame (stub main_keg) -> tt = tt).
Proof.
  assert (Hrun : run (stub main_keg) (titleCmd (sub "titles") ["a"; "b"]) tt =
                 (Done None, tt, titles_ab_trace)) by reflexivity.
  split; [exact Hrun | ].
  apply (queries_never_mutate (stub main_keg) (sub "titles") ["a"; "b"] tt tt (Done None)).
  left. exact Hrun.
Defined.

Lemma current_prints_the_name_witness :
  run (stub main_keg) (currentCmd (sub "current") []) tt =
    (Done None, tt, current_trace) /\
  prints_keg_name (sub "current") (Done None) current_trace.
Proof.
  assert (Hrun : run (stub main_keg) (currentCmd (sub "current") []) tt =
                 (Done None, tt, current_trace)) by reflexivity.
  split; [exact Hrun | ].
  exact (current_prints_the_name (stub main_keg) (sub "current") [] tt tt _ _ Hrun).
Defined.

Lemma dir_prints_the_directory_witness :
  run (stub main_keg) (dirCmd (sub "dir") ["alpha"]) tt =
    (Done None, tt, dir_alpha_trace) /\
  prints_dir (sub "dir") ["alpha"] (Done None) dir_alpha_trace.
Proof.
  assert (Hrun : run (stub main_keg) (dirCmd (sub "dir") ["alpha"]) tt =
                 (Done None, tt, dir_alpha_trace)) by reflexivity.
  split; [exact Hrun | ].
  exact (dir_prints_the_directory (stub main_keg) (sub "dir") ["alpha"] tt tt _ _ Hrun).
Defined.

Lemma dex_update_rebuilds_only_witness :
  run (stub main_keg) (dexUpdateCmd (mkCmd "update" (Some (sub "dex"))) []) tt =
    (Done None, tt, dex_update_trace) /\
  updates_dex (mkCmd "update" (Some (sub "dex"))) (Done None) dex_update_trace /\
  existsb publishes dex_update_trace = false /\
  existsb changes_store dex_update_trace = false.
Proof.
  assert (Hrun : run (stub main_keg)
                   (dexUpdateCmd (mkCmd "update" (Some (sub "dex"))) []) tt =
                 (Done None, tt, dex_update_trace)) by reflexivity.
  split; [exact Hrun | ].
  exact (dex_update_rebuilds_only (stub main_keg) _ [] tt tt _ _ Hrun).
Defined.

Lemma delete_without_argument_panics_witness :
  run (stub main_keg) (deleteCmd (sub "delete") []) tt =
    (Crashed index_panic, tt, delete_nothing_trace) /\
  existsb mutates delete_nothing_trace = false /\
  exists res,
    resolves (Caller (sub "delete")) delete_nothing_trace res /\
    Crashed index_panic =
    match res with
    | (Some _, _) => Crashed index_panic
    | (None, e) => Done e
    end.
Proof.
  assert (Hrun : run (stub main_keg) (deleteCmd (sub "delete") []) tt =
                 (Crashed index_panic, tt, delete_nothing_trace)) by reflexivity.
  split; [exact Hrun | ].
  exact (delete_without_argument_panics (stub main_keg) (sub "delete") tt tt _ _ Hrun).
Defined.

(** ** Beyond the claims: errors and publication *)

Ltac but_last1 l :=
  lazymatch l with
  | [_] => constr:(@nil Entry)
  | ?a :: ?l' => let m := but_last1 l' in constr:(a :: m)
  end.

Lemma stopped_after (pre tr : trace) o :
  existsb failed pre = false ->
  stopped_at_error o tr -> stopped_at_error o (pre ++ tr)%list.
Proof.
  intros Hpre (p & c & e & -> & Hc & Ho & Hp).
  exists (pre ++ p)%list, c, e. repeat split; trivial.
  - now rewrite app_assoc.
  - now rewrite existsb_app, Hpre, Hp.
Qed.

Lemma stopped_cons (c : Entry) (tr : trace) o :
  failed c = false ->
  stopped_at_error o tr -> stopped_at_error o (c :: tr).
Proof.
  intro Hc. apply (stopped_after [c]). cbn. now rewrite Hc.
Qed.

Lemma published_after (pre tr : trace) o :
  existsb publishes pre = false ->
  publishes_last o tr -> publishes_last o (pre ++ tr)%list.
Proof.
  intros Hpre [Hn | (p & kp & rb & r & -> & Hrb & Hp & Ho)].
  - left. now rewrite existsb_app, Hpre, Hn.
  - right. exists (pre ++ p)%list, kp, rb, r. repeat split; trivial.
    + now rewrite app_assoc.
    + now rewrite existsb_app, Hpre, Hp.
Qed.

Lemma published_cons (c : Entry) (tr : trace) o :
  publishes c = false ->
  publishes_last o tr -> publishes_last o (c :: tr).
Proof.
  intro Hc. apply (published_after [c]). cbn. now rewrite Hc.
Qed.

(** Closes a goal [stopped_at_error o tr] on a trace whose last call
    failed. *)
Ltac stopped :=
  lazymatch goal with
  | |- stopped_at_error _ (?c :: ?t ++ ?l)%list =>
      let m := but_last1 l in
      exists (c :: t ++ m)%list; do 2 eexists;
      (split; [cbn [app]; rewrite <- ?app_assoc; reflexivity | ]);
      (split; [reflexivity | split; [reflexivity | sweep_goal; reflexivity]])
  | |- stopped_at_error _ (?t ++ ?l)%list =>
      let m := but_last1 l in
      exists (t ++ m)%list; do 2 eexists;
      (split; [rewrite <- ?app_assoc; reflexivity | ]);
      (split; [reflexivity | split; [reflexivity | sweep_goal; reflexivity]])
  | |- stopped_at_error _ ?l =>
      let m := but_last1 l in
      exists m; do 2 eexists;
      (split; [reflexivity | ]);
      (split; [reflexivity | split; reflexivity])
  end.

(** Closes a goal [publishes_last o tr]. *)
Ltac published :=
  first
    [ left; sweep_goal; reflexivity
    | right;
      lazymatch goal with
      | |- exists pre kp rb r, (?c :: ?t ++ ?l)%list = _ /\ _ =>
          let m := but_last2 l in exists (c :: t ++ m)%list
      | |- exists pre kp rb r, (?t ++ ?l)%list = _ /\ _ =>
          let m := but_last2 l in exists (t ++ m)%list
      | |- exists pre kp rb r, ?l = _ /\ _ =>
          let m := but_last2 l in exists m
      end;
      do 3 eexists;
      (split; [cbn [app]; rewrite <- ?app_assoc; reflexivity | ]);
      (split; [eauto | split; [sweep_goal; reflexivity | reflexivity]]) ].

(** Splits on the answer of the last call when it decides [Hf]. *)
Ltac settle Hf :=
  repeat (match type of Hf with
          | context [failed (Did _ ?r)] => is_var r; destruct r
          end; cbn in Hf).

Section Errors.

Context {lib : Lib} {W : Type} (h : handler W).

Lemma title_stops (x : Cmd) (args : list string) (w w' : W) o tr :
  run h (titleCmd x args) w = (o, w', tr) ->
  existsb publishes tr = false /\
  (existsb failed tr = true -> stopped_at_error o tr).
Proof.
  intro H. unfold titleCmd in H.
  go H; injection H as <- <- <-;
    (split; [sweep_goal; reflexivity | ]);
    intro Hf; sweep Hf; settle Hf; try discriminate Hf; stopped.
Qed.

Lemma editNode_stops (keg : option Local) (id : string) (w w' : W) o tr :
  run h (editNode keg id) w = (o, w', tr) ->
  publishes_last o tr /\
  (existsb failed tr = true -> stopped_at_error o tr).
Proof.
  intro H. unfold editNode in H.
  go H; injection H as <- <- <-;
    (split; [published | ]);
    intro Hf; cbn in Hf; settle Hf; try discriminate Hf; stopped.
Qed.

Lemma edit_stops (x : Cmd) (args : list string) (w w' : W) o tr :
  run h (editCmd x args) w = (o, w', tr) ->
  publishes_last o tr /\
  (existsb failed tr = true -> stopped_at_error o tr).
Proof.
  intro H. unfold editCmd in H.
  go H; injection H as <- <- <-.
  all: try match goal with
           | Ht : run h (titleCmd _ _) _ = _ |- _ =>
               apply title_stops in Ht; destruct Ht as [Hp Hs]
           | Ht : run h (editNode _ _) _ = _ |- _ =>
               apply editNode_stops in Ht; destruct Ht as [Hp Hs]
           end.
  all: split;
    [ first
        [ published
        | repeat first [ apply published_cons; [reflexivity | ]
                       | apply published_after; [env_free | ] ];
          first [assumption | left; assumption] ]
    | intro Hf; sweep Hf; settle Hf; try discriminate Hf;
      first
        [ stopped
        | repeat first [ apply stopped_cons; [reflexivity | ]
                       | apply stopped_after; [env_free | ] ];
          apply Hs; assumption ] ].
Qed.

End Errors.

Section Propagation.

Context {lib : Lib} {W : Type} (h : handler W).


(** X8: in every run of [create], [delete], [edit] and [random], failed or
    not, [Publish] is called at most once and as the last call, right
    after [MakeDex] or [DexUpdate] on the same keg answered nil; the
    command then returns what [Publish] answers. *)
Theorem publish_comes_last
  (x : Cmd) (args : list string) (w w' : W) o tr :
  run h (createCmd x args) w = (o, w', tr) \/
  run h (deleteCmd x args) w = (o, w', tr) \/
  run h (editCmd x args) w = (o, w', tr) \/
  run h (randomCmd x args) w = (o, w', tr) ->
  publishes_last o tr.
Proof.
  intros [H | [H | [H | H]]].
  - unfold createCmd in H. go H; injection H as <- <- <-; published.
  - unfold deleteCmd in H. go H; injection H as <- <- <-; published.
  - now apply (edit_stops h x args w w').
  - unfold randomCmd in H. go H; injection H as <- <- <-.
    all: try match goal with
             | Ht : run h (editCmd _ _) _ = _ |- _ =>
                 apply edit_stops in Ht; destruct Ht as [Hp _]
             end.
    all: first
           [ published
           | repeat first [ apply published_cons; [reflexivity | ]
                          | apply published_after; [env_free | ] ];
             assumption ].
Qed.

End Propagation.


Lemma publish_comes_last_witness :
  run (stub main_keg) (deleteCmd (sub "delete") ["9"]) tt =
    (Done None, tt, delete_9_trace) /\
  publishes_last (Done None) delete_9_trace.
Proof.
  assert (Hrun : run (stub main_keg) (deleteCmd (sub "delete") ["9"]) tt =
                 (Done None, tt, delete_9_trace)) by reflexivity.
  split; [exact Hrun | ].
  apply (publish_comes_last (stub main_keg) (sub "delete") ["9"] tt tt).
  right; left. exact Hrun.
Defined.

(** ** Beyond the claims: decimal ids *)











(** ** Beyond the claims: the count of [latest] *)



Section Count.

Context {lib : Lib} {W : Type} (h : handler W).


End Count.


(** ** Beyond the claims: [create], [edit] and [random] *)

Lemma entry_eqb_refl (e : DexEntry) : entry_eqb e e = true.
Proof. unfold entry_eqb. now rewrite !Z.eqb_refl, String.eqb_refl. Qed.

Section Nodes.

Context {lib : Lib} {W : Type} (h : handler W).

(** X10: once [MakeNode] has made a node, every further call of [create]
    is on that node and its keg: the sample written for it, the editor
    opened on its id, the index updated with it, the keg published; and
    the sample is written exactly when the first argument is [sample]. *)
Theorem create_works_on_the_made_node
  (x : Cmd) (args : list string) (w w' : W) o tr :
  run h (createCmd x args) w = (o, w', tr) ->
  existsb node_made tr = true ->
  works_on_made_node args tr.
Proof.
  intros H Hm. unfold createCmd in H. unfold works_on_made_node.
  go H; injection H as <- <- <-; sweep Hm;
    repeat (match type of Hm with
            | context [match ?v with _ => _ end] => is_var v; destruct v
            end; cbn in Hm);
    try discriminate Hm.
  all: match goal with
       | |- context [(?t ++ Did (MakeNode ?p) (Some ?n, None) :: ?l)%list] =>
           exists t, p, n, l
       end.
  all: (split; [reflexivity | split; [assumption | ]]).
  all: cbn; rewrite ?String.eqb_refl, ?entry_eqb_refl, ?Z.eqb_refl; cbn.
  all: split; [reflexivity | ]; try reflexivity; congruence.
Qed.

Lemma title_changes_nothing (x : Cmd) (args : list string) (w w' : W) o tr :
  run h (titleCmd x args) w = (o, w', tr) ->
  existsb mutates tr = false /\ existsb opens tr = false /\
  existsb looks_up tr = false.
Proof.
  intro H. unfold titleCmd in H.
  go H; injection H as <- <- <-; repeat split; sweep_goal; reflexivity.
Qed.

(** X11: [edit] without argument only calls the help command and returns
    its answer; [edit] with arguments on output that is not interactive
    makes no call that changes the node tree, the index or the published
    state, and never opens the editor. *)
Theorem edit_away_from_terminal_changes_nothing
  (x : Cmd) (args : list string) (w w' : W) o tr :
  run h (editCmd x args) w = (o, w', tr) ->
  args = [] \/ option_map on_terminal (hd_error tr) = Some false ->
  existsb mutates tr = false /\ existsb opens tr = false /\
  (args = [] -> exists r, tr = [Did (HelpCall x []) r] /\ o = Done r).
Proof.
  intros H Hcase. unfold editCmd in H.
  destruct args as [| id rest]; cbn [length Nat.eqb] in H.
  - go H; injection H as <- <- <-. repeat split. intros _. eauto.
  - destruct Hcase as [Hnil | Htty]; [discriminate Hnil | ].
    go H; injection H as <- <- <-; cbn in Htty; try discriminate Htty.
    match goal with
    | Ht : run h (titleCmd _ _) _ = _ |- _ =>
        apply title_changes_nothing in Ht; destruct Ht as (Hm & Ho & _)
    end.
    cbn. rewrite Hm, Ho. repeat split. intro Hnil. discriminate Hnil.
Qed.

End Nodes.

Lemma opened_after (pre tr : trace) :
  existsb opens pre = false ->
  opens_existing tr -> opens_existing (pre ++ tr)%list.
Proof.
  intros Hpre [Hn | (p & path & r & post & -> & Hp & Hpost)].
  - left. now rewrite existsb_app, Hpre, Hn.
  - right. exists (pre ++ p)%list, path, r, post. repeat split; trivial.
    + now rewrite app_assoc.
    + now rewrite existsb_app, Hpre, Hp.
Qed.

Lemma opened_cons (c : Entry) (tr : trace) :
  opens c = false ->
  opens_existing tr -> opens_existing (c :: tr).
Proof.
  intro Hc. apply (opened_after [c]). cbn. now rewrite Hc.
Qed.

Section Editor.

Context {lib : Lib} {W : Type} (h : handler W).

Lemma editNode_opens_existing (keg : option Local) (id : string) (w w' : W) o tr :
  run h (editNode keg id) w = (o, w', tr) ->
  opens_existing tr /\ existsb looks_up tr = false.
Proof.
  intro H. unfold editNode in H.
  go H; injection H as <- <- <-; (split; [ | reflexivity]);
    first [ left; reflexivity
          | right; exists []; do 3 eexists; repeat split ].
Qed.

Lemma edit_opens_existing (x : Cmd) (args : list string) (w w' : W) o tr :
  run h (editCmd x args) w = (o, w', tr) ->
  opens_existing tr.
Proof.
  intro H. unfold editCmd in H.
  go H; injection H as <- <- <-.
  all: try match goal with
           | Ht : run h (titleCmd _ _) _ = _ |- _ =>
               apply title_changes_nothing in Ht; destruct Ht as (_ & Ho & _)
           | Ht : run h (editNode _ _) _ = _ |- _ =>
               apply editNode_opens_existing in Ht; destruct Ht as [Ho _]
           end.
  all: first
         [ left; sweep_goal; first [reflexivity | assumption]
         | repeat first [ apply opened_cons; [reflexivity | ]
                        | apply opened_after; [env_free | ] ];
           assumption ].
Qed.

(** X12: in every run of [edit] and of [random], the editor is opened at
    most once, and only right after [fs.Exists] answered true for the very
    path it is opened on. *)
Theorem editor_opens_only_existing_documents
  (x : Cmd) (args : list string) (w w' : W) o tr :
  run h (editCmd x args) w = (o, w', tr) \/
  run h (randomCmd x args) w = (o, w', tr) ->
  opens_existing tr.
Proof.
  intros [H | H].
  - now apply (edit_opens_existing x args w w' o).
  - unfold randomCmd in H. go H; injection H as <- <- <-.
    all: try match goal with
             | Ht : run h (editCmd _ _) _ = _ |- _ =>
                 apply edit_opens_existing in Ht
             end.
    all: first
           [ left; sweep_goal; reflexivity
           | repeat first [ apply opened_cons; [reflexivity | ]
                          | apply opened_after; [env_free | ] ];
             assumption ].
Qed.

(** X13: [edit] of an integer id on an interactive terminal, once the keg
    is resolved: when the keg has no [README.md] under that id, the
    command returns the error that names the id and the keg, and the
    check of the file is its last call. *)
Theorem edit_of_a_missing_node
  (x : Cmd) (id : string) (rest : list string) (w w1 w2 : W) (keg : Local) t2 :
  snd (Atoi id) = None ->
  id <> "last" ->
  h _ IsInteractive w = (true, w1) ->
  run h (current (Caller x)) w1 = (Done (Some keg, None), w2, t2) ->
  fst (h _ (Exists (Join [Path keg; id; "README.md"])) w2) = false ->
  exists w',
    run h (editCmd x (id :: rest)) w =
      (Done (Some (Errorf "content node (%s) does not exist in %q" [id; LName keg])),
       w',
       (Did IsInteractive true :: t2 ++
        [Did (Exists (Join [Path keg; id; "README.md"])) false])%list).
Proof.
  intros Hid Hlast Htty Hk Hx.
  unfold editCmd. cbn [length Nat.eqb]. unfold call. cbn [bind run].
  rewrite Htty. cbn [negb]. rewrite run_bind, Hk. cbn [index0].
  apply String.eqb_neq in Hlast. rewrite Hlast, Hid.
  unfold editNode, deref, call. cbn [run bind].
  destruct (h _ (Exists (Join [Path keg; id; "README.md"])) w2) as [found w3].
  cbn in Hx. subst found. cbn. eexists. reflexivity.
Qed.

(** X14: [random] in a mode other than [edit], when [Random] gives a node:
    the index is read once, and the one line printed is the id of the node
    for [id], its title for [title], and for [dir] the id alone as a
    path; any other first argument prints nothing; the command returns
    nil, whatever [ReadDex] answered. *)
Theorem random_prints_by_mode
  (x : Cmd) (a : string) (rest : list string) (w w' : W) o tr :
  run h (randomCmd x (a :: rest)) w = (o, w', tr) ->
  a <> "edit" ->
  existsb random_some tr = true ->
  random_shows a o tr.
Proof.
  intros H Hmode Hs. unfold randomCmd, index0 in H. cbn [length Nat.eqb] in H.
  unfold random_shows, random_prints.
  go H; injection H as <- <- <-; sweep Hs;
    repeat (match type of Hs with
            | context [match ?v with _ => _ end] => is_var v; destruct v
            end; cbn in Hs);
    try discriminate Hs.
  all: try match goal with
           | E : String.eqb _ "edit" = true |- _ =>
               apply String.eqb_eq in E; contradiction
           end.
  all: repeat match goal with
              | E : String.eqb _ _ = _ |- _ => rewrite E; clear E
              end.
  all: match goal with
       | Hq : forallb asks_env ?t = true
         |- context [Did (ReadDex ?p) (?d0, ?err0) :: Did (Random _) (Some ?e0) :: _] =>
           exists t, p, d0, err0, e0
       end; repeat split; assumption.
Qed.



End Editor.

Lemma create_works_on_the_made_node_witness :
  run (stub main_keg) (createCmd (sub "create") ["sample"]) tt =
    (Done None, tt, create_sample_trace) /\
  existsb node_made create_sample_trace = true /\
  works_on_made_node ["sample"] create_sample_trace.
Proof.
  assert (Hrun : run (stub main_keg) (createCmd (sub "create") ["sample"]) tt =
                 (Done None, tt, create_sample_trace)) by reflexivity.
  split; [exact Hrun | split; [reflexivity | ]].
  apply (create_works_on_the_made_node (stub main_keg) (sub "create") ["sample"] tt tt
           _ _ Hrun).
  reflexivity.
Defined.

Lemma edit_away_from_terminal_changes_nothing_witness :
  run (stub (piped main_keg)) (editCmd (sub "edit") ["3"]) tt =
    (Done None, tt, piped_edit_trace) /\
  option_map on_terminal (hd_error piped_edit_trace) = Some false /\
  existsb mutates piped_edit_trace = false /\ existsb opens piped_edit_trace = false /\
  (["3"] = [] ->
   exists r, piped_edit_trace = [Did (HelpCall (sub "edit") []) r] /\ Done None = Done r).
Proof.
  assert (Hrun : run (stub (piped main_keg)) (editCmd (sub "edit") ["3"]) tt =
                 (Done None, tt, piped_edit_trace)) by reflexivity.
  split; [exact Hrun | split; [reflexivity | ]].
  apply (edit_away_from_terminal_changes_nothing
           (stub (piped main_keg)) (sub "edit") ["3"] tt tt _ _ Hrun).
  right. reflexivity.
Defined.

Lemma editor_opens_only_existing_documents_witness :
  run (stub main_keg) (editCmd (sub "edit") ["3"]) tt = (Done None, tt, edit_3_trace) /\
  opens_existing edit_3_trace.
Proof.
  assert (Hrun : run (stub main_keg) (editCmd (sub "edit") ["3"]) tt =
                 (Done None, tt, edit_3_trace)) by reflexivity.
  split; [exact Hrun | ].
  apply (editor_opens_only_existing_documents (stub main_keg) (sub "edit") ["3"] tt tt
           (Done None)).
  left. exact Hrun.
Defined.

Lemma edit_of_a_missing_node_witness :
  snd (Atoi "42") = None /\ "42" <> "last" /\
  stub main_keg _ IsInteractive tt = (true, tt) /\
  run (stub main_keg) (current (Caller (sub "edit"))) tt =
    (Done (Some (mkLocal "/k" "main"), None), tt, main_resolution) /\
  fst (stub main_keg _ (Exists (Join ["/k"; "42"; "README.md"])) tt) = false /\
  exists w',
    run (stub main_keg) (editCmd (sub "edit") ["42"]) tt =
      (Done (Some (Errorf "content node (%s) does not exist in %q" ["42"; "main"])),
       w',
       (Did IsInteractive true :: main_resolution ++
        [Did (Exists (Join ["/k"; "42"; "README.md"])) false])%list).
Proof.
  assert (Hk : run (stub main_keg) (current (Caller (sub "edit"))) tt =
               (Done (Some (mkLocal "/k" "main"), None), tt, main_resolution))
    by reflexivity.
  repeat (split; [first [reflexivity | discriminate | exact Hk] | ]).
  exact (edit_of_a_missing_node (stub main_keg) (sub "edit") "42" [] tt tt tt
           (mkLocal "/k" "main") main_resolution
           eq_refl ltac:(discriminate) eq_refl Hk eq_refl).
Defined.

Lemma random_prints_by_mode_witness :
  run (stub main_keg) (randomCmd (sub "random") ["dir"]) tt =
    (Done None, tt, random_dir_trace) /\
  "dir" <> "edit" /\
  existsb random_some random_dir_trace = true /\
  random_shows "dir" (Done None) random_dir_trace.
Proof.
  assert (Hrun : run (stub main_keg) (randomCmd (sub "random") ["dir"]) tt =
                 (Done None, tt, random_dir_trace)) by reflexivity.
  split; [exact Hrun | split; [discriminate | split; [reflexivity | ]]].
  apply (random_prints_by_mode (stub main_keg) (sub "random") "dir" [] tt tt _ _ Hrun).
  - discriminate.
  - reflexivity.
Defined.

